(** * pu_simulator: sampling-window normalization and the collection cycle

    A shallow embedding of the accelerometer demo scripts: the motion
    handler that fills [accelData], the normalization to exactly
    [TARGET_SAMPLES] entries done by [stopCollectingData] when the
    collection timer fires (zero padding, tail truncation, and the
    uniform-stride downsample of the later [main.js]), and the
    start / timer / inference / re-arm cycle.

    JavaScript numbers are binary64 floats; they are modelled by Rocq's
    primitive floats, so that [accelData.length / TARGET_SAMPLES] and
    [Math.floor(i * step)] round exactly as they do in the script. *)

From Stdlib Require Import List Sorted Arith ZArith Lia Bool Floats Uint63.
From Stdlib Require String.
From Equations Require Import Equations.
Import ListNotations.
Import String.StringSyntax.
Delimit Scope string_scope with string.

(** ** JavaScript values that occur in the scripts *)

(** An axis value of a motion event: a number, [null] or [undefined]. *)
Inductive JsValue : Type :=
| JsUndefined
| JsNull
| JsNumber (n : float).

(** [ToBoolean]: [undefined], [null], [+0], [-0] and [NaN] are falsy. *)
Definition truthy (v : JsValue) : bool :=
  match v with
  | JsUndefined | JsNull => false
  | JsNumber n => negb (PrimFloat.is_zero n || PrimFloat.is_nan n)
  end.

(** [a || b] *)
Definition js_or (a b : JsValue) : JsValue := if truthy a then a else b.

(** The number of a non-negative integer, as [i] and [accelData.length]
    are in the scripts. *)
Definition of_nat (n : nat) : float :=
  PrimFloat.of_uint63 (Uint63.of_Z (Z.of_nat n)).

Definition num (n : nat) : JsValue := JsNumber (of_nat n).

(** An entry of [accelData]: the object literal [{ x, y, z }]. *)
Record Reading : Type := mkReading { x : JsValue; y : JsValue; z : JsValue }.

(** [{ x: 0, y: 0, z: 0 }] *)
Definition zero_reading : Reading := mkReading (num 0) (num 0) (num 0).

(** An array element: [None] is [undefined], what reading an array
    outside its bounds yields. *)
Definition Elem : Type := option Reading.

Definition TARGET_SAMPLES : nat := 52.

(** ** Array primitives *)

(** [a.push(v)] *)
Definition push {A} (a : list A) (v : A) : list A := a ++ [v].

(** [a.slice(-n)]: the last [n] elements, the whole array when it is
    shorter. *)
Definition slice_last {A} (n : nat) (a : list A) : list A :=
  skipn (length a - n) a.

(** [Math.floor] of a number, as the integer it denotes; [None] for
    [NaN] and the infinities. A finite float [(-1)^s * m * 2^e] is floored
    by the arithmetic shift of its signed mantissa. *)
Definition SFfloor (f : spec_float) : option Z :=
  match f with
  | S754_zero _ => Some 0%Z
  | S754_finite s m e => Some (Z.shiftl (cond_Zopp s (Zpos m)) e)
  | S754_infinity _ | S754_nan => None
  end.

Definition Math_floor (f : float) : option Z := SFfloor (Prim2SF f).

(** [a[index]] where [index] is the result of [Math.floor]: [undefined]
    when the index is not an integer inside the array. *)
Definition array_get (a : list Elem) (index : option Z) : Elem :=
  match index with
  | Some k => if (k <? 0)%Z then None
              else match nth_error a (Z.to_nat k) with
                   | Some v => v
                   | None => None
                   end
  | None => None
  end.

(** ** Normalization in [stopCollectingData] *)

(** [while (accelData.length < target) accelData.push({x:0,y:0,z:0})],
    run by the scripts with [target = TARGET_SAMPLES]. *)
Equations? pad_loop (target : nat) (accelData : list Elem) : list Elem
  by wf (target - length accelData) lt :=
  pad_loop target accelData with lt_dec (length accelData) target := {
    | left _ := pad_loop target (push accelData (Some zero_reading));
    | right _ := accelData }.
Proof. unfold push. rewrite length_app. simpl. lia. Qed.

(** The index [Math.floor(i * step)] of slot [i], with
    [step = accelData.length / TARGET_SAMPLES]. *)
Definition step_of (len : nat) : float :=
  (of_nat len / of_nat TARGET_SAMPLES)%float.

Definition stride_index (len i : nat) : option Z :=
  Math_floor (of_nat i * step_of len)%float.

(** [for (let i = 0; i < TARGET_SAMPLES; i++)
       downsampled.push(accelData[Math.floor(i * step)])],
    with [n] iterations left to run. *)
Fixpoint downsample_loop (accelData : list Elem) (step : float)
    (n i : nat) (downsampled : list Elem) : list Elem :=
  match n with
  | O => downsampled
  | S n' =>
      let index := Math_floor (of_nat i * step)%float in
      downsample_loop accelData step n' (S i)
        (push downsampled (array_get accelData index))
  end.

Definition downsample (accelData : list Elem) : list Elem :=
  let step := step_of (length accelData) in
  downsample_loop accelData step TARGET_SAMPLES 0 [].

(** The earlier [main.js] and the unnamed variants: pad, or keep the
    last [TARGET_SAMPLES] entries. *)
Definition normalize_truncate (accelData : list Elem) : list Elem :=
  if length accelData <? TARGET_SAMPLES then pad_loop TARGET_SAMPLES accelData
  else if TARGET_SAMPLES <? length accelData
       then slice_last TARGET_SAMPLES accelData
       else accelData.

(** The later [main.js]: pad, or pick [TARGET_SAMPLES] entries at a
    uniform stride. *)
Definition normalize_downsample (accelData : list Elem) : list Elem :=
  if length accelData <? TARGET_SAMPLES then pad_loop TARGET_SAMPLES accelData
  else if TARGET_SAMPLES <? length accelData
       then downsample accelData
       else accelData.

(** What is done with a window longer than [TARGET_SAMPLES]; padding a
    shorter one is common to both scripts. *)
Inductive Policy : Type := Truncate | Downsample.

Definition normalize (p : Policy) (accelData : list Elem) : list Elem :=
  match p with
  | Truncate => normalize_truncate accelData
  | Downsample => normalize_downsample accelData
  end.

(** ** The environment of the scripts *)

(** [event.accelerationIncludingGravity]: an object with the three axes
    (each possibly [null] or missing), or [null] ([None]). *)
Record Acceleration : Type :=
  mkAcceleration { acc_x : JsValue; acc_y : JsValue; acc_z : JsValue }.

Record MotionEvent : Type :=
  mkMotionEvent { accelerationIncludingGravity : option Acceleration }.

(** Errors are opaque values, as thrown by TensorFlow or the runtime. *)
Inductive JsError : Type :=
| TypeError
| OpaqueError (code : nat).

(** The numbers [outputTensor.data()] resolves to. *)
Definition Predictions : Type := list float.

(** What [model.predict(inputTensor)] does when it is called. *)
Inductive PredictResult : Type :=
| PredictThrows (err : JsError)
| PredictReturns.

(** How the promise [outputTensor.data()] settles. *)
Inductive DataResult : Type :=
| DataRejects (err : JsError)
| DataResolves (predictions : Predictions).

(** The text written to the [status] element. *)
Inductive Status : Type :=
| StatusNone
| StatusLoopStopped
| StatusCollecting (samples : nat)
| StatusCollected (samples : nat)
| StatusModelNotLoaded
| StatusInferenceComplete
| StatusInferenceResult (predictions : Predictions)
| StatusLatestReading (x y z : float)
| StatusError (err : JsError).

(** The callbacks registered on [window] for ['devicemotion'] (capture
    phase). Registering a callback that is already in the list does
    nothing, as the DOM specifies. *)
Inductive Callback : Type := HandleMotionEvent.

Definition Callback_eqb (a b : Callback) : bool := true.

Definition addEventListener (c : Callback) (l : list Callback) : list Callback :=
  if existsb (Callback_eqb c) l then l else l ++ [c].

Fixpoint removeEventListener (c : Callback) (l : list Callback) : list Callback :=
  match l with
  | [] => []
  | c' :: l' => if Callback_eqb c c' then l' else c' :: removeEventListener c l'
  end.

(** ** [main.js] *)

Module Main.

(** The globals of the script and the part of the browser it acts on. *)
Record State : Type := mkState {
  model : bool;                  (* [model] is not [null] *)
  accelData : list Elem;
  continueLoop : bool;
  listeners : list Callback;     (* devicemotion listeners of [window] *)
  timers : nat;                  (* pending [setTimeout] callbacks *)
  inferring : nat;               (* runs suspended at [await outputTensor.data()] *)
  status : Status;
  logResults : list Predictions; (* newest first *)
  unhandled : list JsError       (* errors that escaped every handler *)
}.

Definition set_accelData (a : list Elem) (s : State) : State :=
  mkState (model s) a (continueLoop s) (listeners s) (timers s)
          (inferring s) (status s) (logResults s) (unhandled s).
Definition set_continueLoop (b : bool) (s : State) : State :=
  mkState (model s) (accelData s) b (listeners s) (timers s)
          (inferring s) (status s) (logResults s) (unhandled s).
Definition set_listeners (l : list Callback) (s : State) : State :=
  mkState (model s) (accelData s) (continueLoop s) l (timers s)
          (inferring s) (status s) (logResults s) (unhandled s).
Definition set_timers (n : nat) (s : State) : State :=
  mkState (model s) (accelData s) (continueLoop s) (listeners s) n
          (inferring s) (status s) (logResults s) (unhandled s).
Definition set_inferring (n : nat) (s : State) : State :=
  mkState (model s) (accelData s) (continueLoop s) (listeners s) (timers s)
          n (status s) (logResults s) (unhandled s).
Definition set_status (t : Status) (s : State) : State :=
  mkState (model s) (accelData s) (continueLoop s) (listeners s) (timers s)
          (inferring s) t (logResults s) (unhandled s).
Definition set_logResults (l : list Predictions) (s : State) : State :=
  mkState (model s) (accelData s) (continueLoop s) (listeners s) (timers s)
          (inferring s) (status s) l (unhandled s).

Definition set_unhandled (l : list JsError) (s : State) : State :=
  mkState (model s) (accelData s) (continueLoop s) (listeners s) (timers s)
          (inferring s) (status s) (logResults s) l.

(** The script as loaded, with the model loaded or not. *)
Definition init (m : bool) : State :=
  mkState m [] true [] 0 0 StatusNone [] [].

(** [startCollectingData()] *)
Definition startCollectingData (s : State) : State :=
  if negb (continueLoop s) then s
  else
    let s := set_accelData [] s in
    let s := set_listeners (addEventListener HandleMotionEvent (listeners s)) s in
    set_timers (S (timers s)) s.

(** [startContinuousLoop()] *)
Definition startContinuousLoop (s : State) : State :=
  startCollectingData (set_continueLoop true s).

(** [stopContinuousLoop()] *)
Definition stopContinuousLoop (s : State) : State :=
  let s := set_continueLoop false s in
  let s := set_listeners (removeEventListener HandleMotionEvent (listeners s)) s in
  set_status StatusLoopStopped s.

(** The object pushed by [handleMotionEvent]:
    [const { x, y, z } = event.accelerationIncludingGravity || {}]
    and then [{ x: x || 0, y: y || 0, z: z || 0 }]. *)
Definition reading_of_event (event : MotionEvent) : Reading :=
  let '(x, y, z) :=
    match accelerationIncludingGravity event with
    | Some a => (acc_x a, acc_y a, acc_z a)
    | None => (JsUndefined, JsUndefined, JsUndefined)
    end in
  mkReading (js_or x (num 0)) (js_or y (num 0)) (js_or z (num 0)).

(** [handleMotionEvent(event)] *)
Definition handleMotionEvent (event : MotionEvent) (s : State) : State :=
  let s := set_accelData (push (accelData s) (Some (reading_of_event event))) s in
  set_status (StatusCollecting (length (accelData s))) s.

(** A run of an async function either finishes or is suspended at an
    [await] whose promise is still pending. *)
Inductive Run : Type :=
| Finished (s : State)
| Suspended (s : State).

(** [runInference()] up to the first [await]. Building the input
    tensor from the 52 normalized readings is taken to succeed. *)
Definition runInference (r : PredictResult) (s : State) : Run :=
  if negb (model s) then Finished (set_status StatusModelNotLoaded s)
  else
    match r with
    | PredictReturns => Suspended s
    | PredictThrows err => Finished (set_status (StatusError err) s)
    end.

(** [runInference()] from [await outputTensor.data()] on. *)
Definition runInference_resume (r : DataResult) (s : State) : State :=
  match r with
  | DataResolves predictions =>
      let s := set_status StatusInferenceComplete s in
      set_logResults (predictions :: logResults s) s
  | DataRejects err => set_status (StatusError err) s
  end.

(** [stopCollectingData()] after [await runInference()]. *)
Definition stopCollectingData_resume (s : State) : State :=
  if continueLoop s then startCollectingData s else s.

(** [stopCollectingData()], whose normalization is the truncating one
    in the earlier script and the downsampling one in the later. *)
Definition stopCollectingData (p : Policy) (r : PredictResult) (s : State) : State :=
  let s := set_listeners (removeEventListener HandleMotionEvent (listeners s)) s in
  let s := set_accelData (normalize p (accelData s)) s in
  let s := set_status (StatusCollected (length (accelData s))) s in
  match runInference r s with
  | Finished s => stopCollectingData_resume s
  | Suspended s => set_inferring (S (inferring s)) s
  end.

(** What can happen to the page. *)
Inductive Event : Type :=
| Start                           (* [startContinuousLoop()] is called *)
| Stop                            (* [stopContinuousLoop()] is called *)
| Motion (event : MotionEvent)    (* a devicemotion event is dispatched *)
| TimerFires (r : PredictResult)  (* a pending timeout runs its callback *)
| DataSettles (r : DataResult).   (* a pending [data()] promise settles *)

Definition step (p : Policy) (e : Event) (s : State) : State :=
  match e with
  | Start => startContinuousLoop s
  | Stop => stopContinuousLoop s
  | Motion event =>
      if existsb (Callback_eqb HandleMotionEvent) (listeners s)
      then handleMotionEvent event s else s
  | TimerFires r =>
      match timers s with
      | O => s
      | S n => stopCollectingData p r (set_timers n s)
      end
  | DataSettles r =>
      match inferring s with
      | O => s
      | S n => stopCollectingData_resume
                 (runInference_resume r (set_inferring n s))
      end
  end.

Definition run (p : Policy) (tr : list Event) (s : State) : State :=
  fold_left (fun s e => step p e s) tr s.

Inductive Reachable (p : Policy) : State -> Prop :=
| Reachable_init m : Reachable p (init m)
| Reachable_step e s : Reachable p s -> Reachable p (step p e s).

End Main.

(** ** The first looping script (unnamed part 0)

    Same globals as [main.js] (nothing is logged); the handler stores the
    axes as delivered, [runInference] has no [try], and the next cycle is
    started from a [then] callback. *)

Module Part000.
Import Main.

(** [startCollectingData()] *)
Definition startCollectingData (s : State) : State :=
  let s := set_accelData [] s in
  let s := set_listeners (addEventListener HandleMotionEvent (listeners s)) s in
  set_timers (S (timers s)) s.

(** [startLoop()] *)
Definition startLoop (s : State) : State :=
  if negb (continueLoop s) then s else startCollectingData s.

(** [stopLoop()] *)
Definition stopLoop (s : State) : State :=
  let s := set_continueLoop false s in
  let s := set_listeners (removeEventListener HandleMotionEvent (listeners s)) s in
  set_status StatusLoopStopped s.

(** [handleMotionEvent(event)]:
    [const { x, y, z } = event.accelerationIncludingGravity] throws a
    [TypeError] on [null]; otherwise [{ x, y, z }] is pushed. *)
Definition handleMotionEvent (event : MotionEvent) (s : State) : State :=
  match accelerationIncludingGravity event with
  | None => set_unhandled (TypeError :: unhandled s) s
  | Some a =>
      let s := set_accelData
                 (push (accelData s)
                       (Some (mkReading (acc_x a) (acc_y a) (acc_z a)))) s in
      set_status (StatusCollecting (length (accelData s))) s
  end.

(** The promise of an async function: fulfilled, rejected, or pending
    at an [await]. *)
Inductive Promise : Type :=
| Fulfilled (s : State)
| Rejected (err : JsError) (s : State)
| Pending (s : State).

(** [runInference()] up to [await outputTensor.data()]. *)
Definition runInference (r : PredictResult) (s : State) : Promise :=
  if negb (model s) then Fulfilled (set_status StatusModelNotLoaded s)
  else
    match r with
    | PredictReturns => Pending s
    | PredictThrows err => Rejected err s
    end.

(** [runInference()] from [await outputTensor.data()] on. *)
Definition runInference_resume (r : DataResult) (s : State) : Promise :=
  match r with
  | DataResolves predictions =>
      Fulfilled (set_status (StatusInferenceResult predictions) s)
  | DataRejects err => Rejected err s
  end.

(** [runInference().then(() => { if (continueLoop) startCollectingData(); })]:
    the callback runs when the promise is fulfilled; a rejection has
    no handler. *)
Definition then_start (pr : Promise) : State :=
  match pr with
  | Fulfilled s => if continueLoop s then startCollectingData s else s
  | Rejected err s => set_unhandled (err :: unhandled s) s
  | Pending s => set_inferring (S (inferring s)) s
  end.

(** [stopCollectingData()] *)
Definition stopCollectingData (r : PredictResult) (s : State) : State :=
  let s := set_listeners (removeEventListener HandleMotionEvent (listeners s)) s in
  let s := set_accelData (normalize_truncate (accelData s)) s in
  let s := set_status (StatusCollected (length (accelData s))) s in
  then_start (runInference r s).

Definition step (e : Event) (s : State) : State :=
  match e with
  | Start => startLoop s
  | Stop => stopLoop s
  | Motion event =>
      if existsb (Callback_eqb HandleMotionEvent) (listeners s)
      then handleMotionEvent event s else s
  | TimerFires r =>
      match timers s with
      | O => s
      | S n => stopCollectingData r (set_timers n s)
      end
  | DataSettles r =>
      match inferring s with
      | O => s
      | S n =>
          then_start (runInference_resume r (set_inferring n s))
      end
  end.

Definition run (tr : list Event) (s : State) : State :=
  fold_left (fun s e => step e s) tr s.

End Part000.

(** ** The rolling-buffer script (unnamed part 2) *)

Module Part002.

Definition SAMPLE_RATE : nat := 50.
Definition BUFFER_LENGTH_SEC : nat := 2.
Definition MAX_SAMPLES : nat := SAMPLE_RATE * BUFFER_LENGTH_SEC.

(** [{ x, y, z, t: performance.now() }] *)
Record TimedReading : Type :=
  mkTimedReading { tx : JsValue; ty : JsValue; tz : JsValue; t : float }.

Record State : Type := mkState {
  accelData : list TimedReading;
  status : Status;
  unhandled : list JsError
}.

(** [x.toFixed(3)] needs a number. *)
Definition number_of (v : JsValue) : option float :=
  match v with JsNumber n => Some n | _ => None end.

(** [handleMotionEvent(event)], with [now] what [performance.now()]
    returns. The buffer is updated before the status text is built, so
    a [TypeError] from [toFixed] leaves the pushed reading in place. *)
Definition handleMotionEvent (now : float) (event : MotionEvent) (s : State) : State :=
  match accelerationIncludingGravity event with
  | None => mkState (accelData s) (status s) (TypeError :: unhandled s)
  | Some a =>
      let data := push (accelData s)
                    (mkTimedReading (acc_x a) (acc_y a) (acc_z a) now) in
      let data := if MAX_SAMPLES <? length data then tl data else data in
      match number_of (acc_x a), number_of (acc_y a), number_of (acc_z a) with
      | Some x, Some y, Some z =>
          mkState data (StatusLatestReading x y z) (unhandled s)
      | _, _, _ => mkState data (status s) (TypeError :: unhandled s)
      end
  end.

End Part002.

(** ** Start-up: permission, model loading, [initDemo] *)

(** What the page finds when it asks for the motion permission:
    no [DeviceMotionEvent.requestPermission] function at all, or a
    request that resolves to a string or is rejected. *)
Inductive PermissionRequest : Type :=
| RequestResolves (response : String.string)
| RequestRejects (err : JsError).

Inductive PermissionEnv : Type :=
| NoPermissionAPI
| PermissionAPI (outcome : PermissionRequest).

(** [requestMotionPermission()], the same in every script. *)
Definition requestMotionPermission (env : PermissionEnv) : bool :=
  match env with
  | PermissionAPI (RequestResolves response) =>
      if String.eqb response "granted"%string then true else false
  | PermissionAPI (RequestRejects err) => false
  | NoPermissionAPI => true
  end.

(** How [tf.loadLayersModel] settles. *)
Inductive LoadResult : Type :=
| LoadSucceeds
| LoadFails (err : JsError).

(** The text [initDemo] leaves in the [status] element. *)
Inductive InitStatus : Type :=
| InitPermissionDenied     (* 'Permission for motion denied.' *)
| InitFailedToLoad         (* 'Failed to load model.' *)
| InitStarting.            (* 'Model loaded. Starting ...' *)

Module MainInit.
Import Main.

(** [loadModel()] of [main.js]: the handle on success, [null] on error. *)
Definition loadModel (load : LoadResult) (s : State) : State :=
  mkState (match load with LoadSucceeds => true | LoadFails _ => false end)
          (accelData s) (continueLoop s) (listeners s) (timers s)
          (inferring s) (status s) (logResults s) (unhandled s).

(** [initDemo()] of [main.js]; the first component is the text it
    leaves in the status element. *)
Definition initDemo (env : PermissionEnv) (load : LoadResult) (s : State)
  : InitStatus * State :=
  if negb (requestMotionPermission env) then (InitPermissionDenied, s)
  else
    let s := loadModel load s in
    if negb (model s) then (InitFailedToLoad, s)
    else (InitStarting, startContinuousLoop s).

End MainInit.

(** ** The single-shot script (unnamed part 1)

    One click collects one window and runs one inference. The handler
    and [runInference] are those of the first looping script, word for
    word; nothing starts a second window. *)

Module Part001.
Import Main.

(** [loadModel()]: an error is logged and [model] keeps its value. *)
Definition loadModel (load : LoadResult) (s : State) : State :=
  mkState (match load with LoadSucceeds => true | LoadFails _ => model s end)
          (accelData s) (continueLoop s) (listeners s) (timers s)
          (inferring s) (status s) (logResults s) (unhandled s).

(** [startCollectingData()] *)
Definition startCollectingData (s : State) : State :=
  let s := set_accelData [] s in
  let s := set_listeners (addEventListener HandleMotionEvent (listeners s)) s in
  set_timers (S (timers s)) s.

(** [runInference()] called without [await] or [then]: its promise
    is dropped, so a rejection is unhandled. *)
Definition drop_promise (pr : Part000.Promise) : State :=
  match pr with
  | Part000.Fulfilled s => s
  | Part000.Rejected err s => set_unhandled (err :: unhandled s) s
  | Part000.Pending s => set_inferring (S (inferring s)) s
  end.

(** [stopCollectingData()] *)
Definition stopCollectingData (r : PredictResult) (s : State) : State :=
  let s := set_listeners (removeEventListener HandleMotionEvent (listeners s)) s in
  let s := set_accelData (normalize_truncate (accelData s)) s in
  let s := set_status (StatusCollected (length (accelData s))) s in
  drop_promise (Part000.runInference r s).

(** [initDemo()], the click handler of the start button: the
    collection starts whether or not the model could be loaded. *)
Definition initDemo (env : PermissionEnv) (load : LoadResult) (s : State)
  : InitStatus + State :=
  if negb (requestMotionPermission env) then inl InitPermissionDenied
  else inr (startCollectingData (loadModel load s)).

(** What can happen to the page. *)
Inductive Event : Type :=
| Click (env : PermissionEnv) (load : LoadResult)
| Motion (event : MotionEvent)
| TimerFires (r : PredictResult)
| DataSettles (r : DataResult).

Definition step (e : Event) (s : State) : State :=
  match e with
  | Click env load =>
      match initDemo env load s with
      | inl _ => s
      | inr s' => s'
      end
  | Motion event =>
      if existsb (Callback_eqb HandleMotionEvent) (listeners s)
      then Part000.handleMotionEvent event s else s
  | TimerFires r =>
      match timers s with
      | O => s
      | S n => stopCollectingData r (set_timers n s)
      end
  | DataSettles r =>
      match inferring s with
      | O => s
      | S n => drop_promise (Part000.runInference_resume r (set_inferring n s))
      end
  end.

Definition run (tr : list Event) (s : State) : State :=
  fold_left (fun s e => step e s) tr s.

End Part001.

(** ** Callers of the earlier scripts *)

(** The states the first looping script can reach. *)
Inductive Part000_Reachable : Main.State -> Prop :=
| Part000_Reachable_init m : Part000_Reachable (Main.init m)
| Part000_Reachable_step e s :
    Part000_Reachable s -> Part000_Reachable (Part000.step e s).

(** The rolling-buffer script handling a sequence of events, each with
    the time [performance.now()] returns for it. *)
Definition rolling_run (evs : list (float * MotionEvent)) (s : Part002.State)
  : Part002.State :=
  fold_left (fun s e => Part002.handleMotionEvent (fst e) (snd e) s) evs s.

(** The readings the rolling-buffer handler pushes for these events:
    one for each event that carries an acceleration object. *)
Definition delivered (evs : list (float * MotionEvent)) : list Part002.TimedReading :=
  flat_map (fun e =>
              match accelerationIncludingGravity (snd e) with
              | Some a => [Part002.mkTimedReading (acc_x a) (acc_y a) (acc_z a) (fst e)]
              | None => []
              end) evs.

(** An entry that is a reading whose three axes are numbers other than
    [NaN]. *)
Definition numeric_entry (v : Elem) : Prop :=
  exists nx ny nz,
    v = Some (mkReading (JsNumber nx) (JsNumber ny) (JsNumber nz)) /\
    PrimFloat.is_nan nx = false /\ PrimFloat.is_nan ny = false /\
    PrimFloat.is_nan nz = false.

(** While the loop flag is set, a timer is pending or an inference is
    in flight. *)
Definition cycle_alive (s : Main.State) : Prop :=
  Main.continueLoop s = true -> 1 <= Main.timers s + Main.inferring s.

(** ** Notions used to state the properties *)

(** [Subseq l1 l2]: [l1] is obtained from [l2] by dropping entries,
    keeping the order of the others. *)
Inductive Subseq {A : Type} : list A -> list A -> Prop :=
| Subseq_nil l : Subseq [] l
| Subseq_skip x l1 l2 : Subseq l1 l2 -> Subseq l1 (x :: l2)
| Subseq_take x l1 l2 : Subseq l1 l2 -> Subseq (x :: l1) (x :: l2).

(** A window of [n] readings [(k,k,k)], [k = 0 .. n-1]. *)
Definition sequential (n : nat) : list Elem :=
  map (fun k => Some (mkReading (num k) (num k) (num k))) (seq 0 n).

(** A window of [n] readings [(0,0,0)]. *)
Definition zeros (n : nat) : list Elem := repeat (Some zero_reading) n.

(** A motion event with the given axes. *)
Definition motion (x y z : JsValue) : MotionEvent :=
  mkMotionEvent (Some (mkAcceleration x y z)).

(** The number of motion listeners attached to [window]. *)
Definition attached (s : Main.State) : nat := length (Main.listeners s).

(** What holds of the listener in every state the page can reach: it is
    attached at most once, and only while a collection timer is pending
    and the loop flag is set. *)
Definition listener_ok (s : Main.State) : Prop :=
  attached s <= 1 /\
  (attached s = 1 -> 1 <= Main.timers s /\ Main.continueLoop s = true).

(** The rolling buffer holding readings [k = first .. first + n - 1]. *)
Definition timed (k : nat) : Part002.TimedReading :=
  Part002.mkTimedReading (num k) (num k) (num k) (of_nat k).

Definition rolling (first n : nat) : Part002.State :=
  Part002.mkState (map timed (seq first n)) StatusNone [].

(** ** Facts about the normalization loops *)

Section NormalizationFacts.

Lemma pad_loop_app target (a : list Elem) :
  pad_loop target a = a ++ repeat (Some zero_reading) (target - length a).
Proof.
  funelim (pad_loop target a).
  - match goal with IH : pad_loop _ _ = _ ++ _ |- _ => rewrite IH end.
    unfold push. rewrite length_app, <- app_assoc. simpl.
    replace (target - length accelData) with (S (target - (length accelData + 1))) by lia.
    reflexivity.
  - replace (target - length accelData) with 0 by lia.
    simpl. now rewrite app_nil_r.
Qed.

Lemma pad_loop_length target (a : list Elem) :
  length a <= target -> length (pad_loop target a) = target.
Proof.
  intros H. rewrite pad_loop_app, length_app, repeat_length. lia.
Qed.

Lemma downsample_loop_map a step n i acc :
  downsample_loop a step n i acc =
  acc ++ map (fun j => array_get a (Math_floor (of_nat j * step)%float)) (seq i n).
Proof.
  revert i acc. induction n as [|n IH]; intros i acc; simpl.
  - now rewrite app_nil_r.
  - rewrite IH. unfold push. now rewrite <- app_assoc.
Qed.

Lemma downsample_map a :
  downsample a =
  map (fun i => array_get a (stride_index (length a) i)) (seq 0 TARGET_SAMPLES).
Proof. unfold downsample. now rewrite downsample_loop_map. Qed.

Lemma downsample_length a : length (downsample a) = TARGET_SAMPLES.
Proof. now rewrite downsample_map, length_map, length_seq. Qed.

Lemma slice_last_length {A} n (a : list A) :
  n <= length a -> length (slice_last n a) = n.
Proof. intros H. unfold slice_last. rewrite length_skipn. lia. Qed.

Lemma normalize_fixed p a :
  length a = TARGET_SAMPLES -> normalize p a = a.
Proof.
  intros H. destruct p; simpl;
    unfold normalize_truncate, normalize_downsample; rewrite H;
    now rewrite Nat.ltb_irrefl.
Qed.

Lemma normalize_pad p a :
  length a < TARGET_SAMPLES ->
  normalize p a = a ++ repeat (Some zero_reading) (TARGET_SAMPLES - length a).
Proof.
  intros H. apply Nat.ltb_lt in H.
  destruct p; simpl; unfold normalize_truncate, normalize_downsample;
    rewrite H; apply pad_loop_app.
Qed.

Lemma normalize_length p a : length (normalize p a) = TARGET_SAMPLES.
Proof.
  destruct p; simpl; unfold normalize_truncate, normalize_downsample;
    destruct (length a <? TARGET_SAMPLES) eqn:Hlt;
    try (apply Nat.ltb_lt in Hlt; apply pad_loop_length; lia);
    apply Nat.ltb_ge in Hlt;
    destruct (TARGET_SAMPLES <? length a) eqn:Hgt;
    try (apply Nat.ltb_ge in Hgt; lia).
  - apply slice_last_length; lia.
  - apply downsample_length.
Qed.

End NormalizationFacts.

(** ** Binary64 arithmetic of the stride index

    What [Math.floor(i * (len / 52))] evaluates to, derived from the
    specification of the primitive float operations: the quotient and
    the product are each rounded to 53 bits, so the index is the exact
    [floor(i * len / 52)] or, when [52] divides [i * len], possibly one
    less. *)

Module FloatFacts.

Local Open Scope Z_scope.

(** *** Number of binary digits *)
Lemma digits2_pos_size p : digits2_pos p = Pos.size p.
Proof. induction p; simpl; congruence. Qed.

Lemma Zdigits2_log2 m : 0 < m -> Zdigits2 m = Z.log2 m + 1.
Proof.
  destruct m as [|p|p]; try lia. intros _. simpl.
  destruct p; simpl; rewrite ?digits2_pos_size; lia.
Qed.

(** [Zdigits2 m] is the [d] with [2^(d-1) <= m < 2^d]. *)
Lemma Zdigits2_bounds m : 0 < m -> 2 ^ (Zdigits2 m - 1) <= m < 2 ^ Zdigits2 m.
Proof.
  intros H. rewrite Zdigits2_log2 by assumption.
  replace (Z.log2 m + 1 - 1) with (Z.log2 m) by lia.
  pose proof (Z.log2_spec m H). replace (Z.log2 m + 1) with (Z.succ (Z.log2 m)) by lia. lia.
Qed.

Lemma Zdigits2_unique m d : 2 ^ (d - 1) <= m < 2 ^ d -> 0 < d -> Zdigits2 m = d.
Proof.
  intros H Hd. assert (0 < m) by (pose proof (Z.pow_pos_nonneg 2 (d-1)); lia).
  rewrite Zdigits2_log2 by assumption.
  enough (Z.log2 m = d - 1) by lia.
  apply Z.log2_unique; [lia|]. replace (Z.succ (d-1)) with d by lia. lia.
Qed.

(** *** Right shifts of the rounding record

    Shifting by [n] divides the mantissa by [2^n], rounding down; the
    bits shifted out only live in the round and sticky flags. *)
Lemma shr_m_shr_1 mrs : 0 <= shr_m mrs -> shr_m (shr_1 mrs) = shr_m mrs / 2.
Proof.
  destruct mrs as [m r s]. simpl. intros H.
  destruct m as [|p|p]; try lia; simpl; try reflexivity.
  destruct p; simpl.
  - rewrite Pos2Z.inj_xI. apply Z.div_unique with (r:=1); lia.
  - rewrite Pos2Z.inj_xO. apply Z.div_unique with (r:=0); lia.
  - reflexivity.
Qed.

Lemma shr_m_iter_pos p mrs :
  0 <= shr_m mrs -> shr_m (iter_pos shr_1 p mrs) = shr_m mrs / 2 ^ Zpos p.
Proof.
  revert mrs. induction p as [p IH|p IH|]; intros mrs H; simpl iter_pos.
  - assert (H1: 0 <= shr_m (shr_1 mrs)) by (rewrite shr_m_shr_1 by lia; apply Z.div_pos; lia).
    assert (H2: 0 <= shr_m (iter_pos shr_1 p (shr_1 mrs))) by (rewrite IH by lia; apply Z.div_pos; try lia; apply Z.pow_pos_nonneg; lia).
    rewrite IH, IH, shr_m_shr_1 by lia.
    rewrite !Z.div_div by (try lia; apply Z.pow_pos_nonneg; lia).
    f_equal. change 2 with (2 ^ 1) at 1. rewrite <- !Z.pow_add_r by lia.
    f_equal; lia.
  - assert (H2: 0 <= shr_m (iter_pos shr_1 p mrs)) by (rewrite IH by lia; apply Z.div_pos; try lia; apply Z.pow_pos_nonneg; lia).
    rewrite IH, IH by lia.
    rewrite !Z.div_div by (try lia; apply Z.pow_pos_nonneg; lia).
    f_equal. rewrite <- !Z.pow_add_r by lia. f_equal; lia.
  - rewrite shr_m_shr_1 by lia. reflexivity.
Qed.

Lemma shr_m_record_of_loc m l : shr_m (shr_record_of_loc m l) = m.
Proof. destruct l as [|[]]; reflexivity. Qed.

Lemma shr_spec m l e n :
  0 <= m -> 0 <= n ->
  exists mrs, shr (shr_record_of_loc m l) e n = (mrs, e + n) /\ shr_m mrs = m / 2 ^ n
     /\ (n = 0 -> loc_of_shr_record mrs = l).
Proof.
  intros Hm Hn. destruct n as [|p|p]; try lia; simpl.
  - eexists; split; [rewrite Z.add_0_r; reflexivity|]. split.
    + rewrite shr_m_record_of_loc, Z.div_1_r; reflexivity.
    + intros _. destruct l as [|[]]; reflexivity.
  - eexists; split; [reflexivity|]. split.
    + rewrite shr_m_iter_pos by (rewrite shr_m_record_of_loc; lia).
      now rewrite shr_m_record_of_loc.
    + lia.
Qed.

(** Rounding to nearest even keeps the truncated mantissa or adds one. *)
Lemma round_nearest_even_cases m l :
  round_nearest_even m l = m \/ round_nearest_even m l = m + 1.
Proof.
  destruct l as [|[]]; simpl; auto. destruct (Z.even m); auto.
Qed.

(** *** Rounding to 53 bits

    In the normal range the exponent of a number with [e] digits before
    the binary point is [e - 53]. *)
Lemma fexp_normal e : -1021 <= e -> fexp prec emax e = e - 53.
Proof. intros H. unfold fexp, SpecFloat.emin, prec, emax. lia. Qed.

Lemma pow2_pos e : 0 <= e -> 0 < 2 ^ e.
Proof. intros; apply Z.pow_pos_nonneg; lia. Qed.

(** [binary_round_aux] on a positive mantissa of at least 53 digits,
    away from overflow and underflow: the result is a normal float that
    lies between the input truncated to 53 digits and the next multiple
    of the dropped scale; an exact 53-digit input is returned as it is. *)
Lemma round_aux_spec mx ex lx :
  0 < mx -> 53 <= Zdigits2 mx -> -1021 <= Zdigits2 mx + ex <= 1023 ->
  exists m e,
    binary_round_aux prec emax false mx ex lx = S754_finite false m e /\
    2 ^ 52 <= Zpos m < 2 ^ 53 /\
    ex + (Zdigits2 mx - 53) <= e <= ex + (Zdigits2 mx - 53) + 1 /\
    (mx / 2 ^ (Zdigits2 mx - 53)) * 2 ^ (Zdigits2 mx - 53) <= Zpos m * 2 ^ (e - ex)
      <= (mx / 2 ^ (Zdigits2 mx - 53) + 1) * 2 ^ (Zdigits2 mx - 53) /\
    (lx = loc_Exact -> Zdigits2 mx = 53 -> Zpos m = mx /\ e = ex).
Proof.
  intros Hmx Hd Hrange.
  pose proof (Zdigits2_bounds mx Hmx) as Hb.
  remember (Zdigits2 mx) as d eqn:Ed.
  remember (d - 53) as n eqn:En.
  assert (Hn : 0 <= n) by lia.
  assert (Hpn : 0 < 2 ^ n) by (apply pow2_pos; lia).
  assert (Ht : 2 ^ 52 <= mx / 2 ^ n < 2 ^ 53).
  { replace (d - 1) with (52 + n) in Hb by lia.
    replace (2 ^ d) with (2 ^ (53 + n)) in Hb by (f_equal; lia).
    rewrite !Z.pow_add_r in Hb by lia. split.
    - apply Z.div_le_lower_bound; lia.
    - apply Z.div_lt_upper_bound; lia. }
  remember (mx / 2 ^ n) as t eqn:Et.
  unfold binary_round_aux, shr_fexp. rewrite <- Ed.
  rewrite fexp_normal by lia.
  replace (d + ex - 53 - ex) with n by lia.
  destruct (shr_spec mx lx ex n) as (mrs & E1 & Hm & Hl); try lia.
  rewrite E1. rewrite <- Et in Hm. rewrite Hm.
  destruct (round_nearest_even_cases t (loc_of_shr_record mrs)) as [Hr|Hr];
    rewrite Hr.
  - (* rounded down *)
    assert (Hd2 : Zdigits2 t = 53) by (apply Zdigits2_unique; lia).
    rewrite Hd2, fexp_normal by lia.
    replace (53 + (ex + n) - 53 - (ex + n)) with 0 by lia.
    destruct (shr_spec t loc_Exact (ex + n) 0) as (mrs2 & E2 & Hm2 & _); try lia.
    rewrite E2, Hm2, Z.div_1_r.
    destruct t as [|pt|pt]; try lia.
    replace (ex + n + 0 <=? emax - prec) with true
      by (symmetry; apply Z.leb_le; unfold emax, prec; lia).
    exists pt, (ex + n + 0).
    replace (ex + n + 0 - ex) with n by lia.
    split; [reflexivity|]. split; [lia|]. split; [lia|]. split; [lia|].
    intros -> Hd53. assert (H : n = 0) by lia.
    rewrite H, Z.div_1_r in Et. lia.
  - (* rounded up *)
    destruct (Z.eq_dec (t + 1) (2 ^ 53)) as [Hc|Hc].
    + assert (Hd2 : Zdigits2 (t + 1) = 54) by (apply Zdigits2_unique; lia).
      rewrite Hd2, fexp_normal by lia.
      replace (54 + (ex + n) - 53 - (ex + n)) with 1 by lia.
      destruct (shr_spec (t + 1) loc_Exact (ex + n) 1) as (mrs2 & E2 & Hm2 & _); try lia.
      rewrite E2, Hm2, Hc.
      change (2 ^ 53 / 2 ^ 1) with (Z.pos (2 ^ 52)%positive).
      replace (ex + n + 1 <=? emax - prec) with true
        by (symmetry; apply Z.leb_le; unfold emax, prec; lia).
      exists (2 ^ 52)%positive, (ex + n + 1).
      replace (ex + n + 1 - ex) with (1 + n) by lia.
      rewrite Z.pow_add_r by lia.
      split; [reflexivity|]. split; [simpl; lia|]. split; [lia|]. split; [lia|].
      intros -> Hd53. exfalso.
      assert (H : n = 0) by lia.
      rewrite (Hl H) in Hr. simpl in Hr. lia.
    + assert (Hd2 : Zdigits2 (t + 1) = 53) by (apply Zdigits2_unique; lia).
      rewrite Hd2, fexp_normal by lia.
      replace (53 + (ex + n) - 53 - (ex + n)) with 0 by lia.
      destruct (shr_spec (t + 1) loc_Exact (ex + n) 0) as (mrs2 & E2 & Hm2 & _); try lia.
      rewrite E2, Hm2, Z.div_1_r.
      destruct (t + 1) as [|pt|pt] eqn:Ept; try lia.
      replace (ex + n + 0 <=? emax - prec) with true
        by (symmetry; apply Z.leb_le; unfold emax, prec; lia).
      exists pt, (ex + n + 0).
      replace (ex + n + 0 - ex) with n by lia.
      split; [reflexivity|]. split; [lia|]. split; [lia|]. split; [lia|].
      intros -> Hd53. exfalso.
      assert (H : n = 0) by lia.
      rewrite (Hl H) in Hr. simpl in Hr. lia.
Qed.

(** *** Integers as floats *)
Lemma iter_xO_pow m d : Zpos (Pos.iter xO m d) = Zpos m * 2 ^ Zpos d.
Proof.
  induction d as [|d IH] using Pos.peano_ind.
  - simpl. lia.
  - rewrite Pos.iter_succ, Pos2Z.inj_xO, IH, Pos2Z.inj_succ, Z.pow_succ_r by lia. lia.
Qed.

(** A positive integer below [2^53] is represented exactly, its
    mantissa shifted left to 53 digits. *)
Lemma binary_round_exact (p : positive) :
  Zpos p < 2 ^ 53 ->
  exists m e,
    binary_round prec emax false p 0 = S754_finite false m e /\
    2 ^ 52 <= Zpos m < 2 ^ 53 /\ -52 <= e <= 0 /\
    Zpos m = Zpos p * 2 ^ (- e).
Proof.
  intros Hp.
  pose proof (Zdigits2_bounds (Zpos p) ltac:(lia)) as Hb.
  assert (Hd : 1 <= Zdigits2 (Zpos p) <= 53).
  { split.
    - rewrite Zdigits2_log2 by lia. pose proof (Z.log2_nonneg (Zpos p)). lia.
    - destruct (Z_le_gt_dec (Zdigits2 (Z.pos p)) 53) as [|Hgt]; [assumption|].
      exfalso. assert (2 ^ 53 <= 2 ^ (Zdigits2 (Z.pos p) - 1)) by (apply Z.pow_le_mono_r; lia).
      lia. }
  remember (Zdigits2 (Zpos p)) as d eqn:Ed.
  unfold binary_round. change (Z.pos (digits2_pos p)) with (Zdigits2 (Zpos p)).
  rewrite <- Ed, fexp_normal by lia.
  unfold shl_align.
  destruct (d + 0 - 53 - 0) as [|q|q] eqn:Eq; try lia.
  - (* already 53 digits *)
    destruct (round_aux_spec (Zpos p) 0 loc_Exact) as (m & e & E & Hm & He & _ & Hex);
      try lia.
    destruct Hex as [Hmp He0]; [reflexivity|lia|].
    exists m, e. rewrite E. subst e. simpl. repeat split; lia.
  - assert (Hq : Zpos q = 53 - d) by lia.
    assert (Hm' : Zpos (Pos.iter xO p q) = Zpos p * 2 ^ (53 - d))
      by (rewrite iter_xO_pow, Hq; reflexivity).
    assert (Hb' : 2 ^ 52 <= Zpos (Pos.iter xO p q) < 2 ^ 53).
    { rewrite Hm'.
      assert (H52 : 2 ^ 52 = 2 ^ (d - 1) * 2 ^ (53 - d))
        by (rewrite <- Z.pow_add_r by lia; f_equal; lia).
      assert (H53 : 2 ^ 53 = 2 ^ d * 2 ^ (53 - d))
        by (rewrite <- Z.pow_add_r by lia; f_equal; lia).
      rewrite H52, H53.
      assert (0 < 2 ^ (53 - d)) by (apply pow2_pos; lia).
      split; [apply Z.mul_le_mono_nonneg_r | apply Z.mul_lt_mono_pos_r]; lia. }
    assert (Hd' : Zdigits2 (Zpos (Pos.iter xO p q)) = 53)
      by (apply Zdigits2_unique; lia).
    destruct (round_aux_spec (Zpos (Pos.iter xO p q)) (d + 0 - 53) loc_Exact)
      as (m & e & E & Hm & He & _ & Hex); try lia.
    destruct Hex as [Hmp He0]; [reflexivity|lia|].
    exists m, e. rewrite E. subst e. 
    replace (- (d + 0 - 53)) with (53 - d) by lia.
    repeat split; lia.
Qed.

Lemma Prim2SF_of_uint63_nat (n : nat) :
  0 < Z.of_nat n < 2 ^ 53 ->
  exists m e,
    Prim2SF (PrimFloat.of_uint63 (Uint63.of_Z (Z.of_nat n))) = S754_finite false m e /\
    2 ^ 52 <= Zpos m < 2 ^ 53 /\ -52 <= e <= 0 /\
    Zpos m = Z.of_nat n * 2 ^ (- e).
Proof.
  intros Hn. rewrite of_uint63_spec.
  assert (E : Uint63Axioms.to_Z (Uint63.of_Z (Z.of_nat n)) = Z.of_nat n).
  { change Uint63Axioms.to_Z with Uint63.to_Z. rewrite Uint63.of_Z_spec.
    apply Z.mod_small. change wB with (2 ^ 63). 
    assert (2 ^ 53 < 2 ^ 63) by (apply Z.pow_lt_mono_r; lia). lia. }
  rewrite E. destruct (Z.of_nat n) as [|p|p] eqn:Ep; try lia.
  simpl. apply binary_round_exact. lia.
Qed.

(** *** Quotient and product

    The quotient of two normal floats: its mantissa, scaled, is within
    two divisors of the exact [ma * 2^53 / mb]. *)
Lemma SFdiv_spec ma ea mb eb :
  2 ^ 52 <= Zpos ma < 2 ^ 53 -> 2 ^ 52 <= Zpos mb < 2 ^ 53 ->
  -400 <= ea <= 400 -> -400 <= eb <= 400 ->
  exists m e,
    SF64div (S754_finite false ma ea) (S754_finite false mb eb) = S754_finite false m e /\
    2 ^ 52 <= Zpos m < 2 ^ 53 /\
    ea - eb - 53 <= e <= ea - eb - 51 /\
    - (2 * Zpos mb) <= Zpos m * 2 ^ (e - (ea - eb - 53)) * Zpos mb - Zpos ma * 2 ^ 53
      <= 2 * Zpos mb.
Proof.
  intros Ha Hb Hea Heb.
  unfold SF64div, SFdiv, SFdiv_core_binary.
  rewrite (Zdigits2_unique (Zpos ma) 53), (Zdigits2_unique (Zpos mb) 53) by lia.
  rewrite fexp_normal by lia.
  replace (Z.min (53 + ea - (53 + eb) - 53) (ea - eb)) with (ea - eb - 53) by lia.
  replace (ea - eb - (ea - eb - 53)) with 53 by lia.
  rewrite Z.shiftl_mul_pow2 by lia.
  remember (Zpos ma * 2 ^ 53) as a eqn:Ea.
  pose proof (Z_div_mod_eq_full a (Zpos mb)) as Hdm.
  pose proof (Z.mod_pos_bound a (Zpos mb) ltac:(lia)) as Hmod.
  unfold Z.div, Z.modulo in Hdm, Hmod.
  destruct (Z.div_eucl a (Zpos mb)) as [q r]. cbv beta iota in Hdm, Hmod.
  assert (Hq : 2 ^ 52 <= q < 2 ^ 54).
  { split.
    - destruct (Z_lt_le_dec q (2 ^ 52)) as [Hlt|]; [exfalso|assumption].
      assert (Zpos mb * (q + 1) <= Zpos mb * 2 ^ 52)
        by (apply Z.mul_le_mono_nonneg_l; lia).
      lia.
    - destruct (Z_lt_le_dec q (2 ^ 54)) as [|Hge]; [assumption|exfalso].
      assert (2 ^ 52 * 2 ^ 54 <= Zpos mb * q)
        by (apply Z.mul_le_mono_nonneg; lia).
      lia. }
  assert (Hdq : Zdigits2 q = 53 \/ Zdigits2 q = 54).
  { destruct (Z_lt_le_dec q (2 ^ 53)); [left|right]; apply Zdigits2_unique; lia. }
  destruct (round_aux_spec q (ea - eb - 53) (new_location (Zpos mb) r))
    as (m & e & E & Hm & He & Hv & _); try lia.
  exists m, e. cbn [xorb]. rewrite E. split; [reflexivity|]. split; [lia|]. split; [lia|].
  remember (Zpos m * 2 ^ (e - (ea - eb - 53))) as M eqn:EM.
  destruct Hdq as [Hd|Hd]; rewrite Hd in Hv.
  - change (2 ^ (53 - 53)) with 1 in Hv. rewrite Z.div_1_r in Hv.
    assert (q * Zpos mb <= M * Zpos mb) by (apply Z.mul_le_mono_nonneg_r; lia).
    assert (M * Zpos mb <= (q + 1) * Zpos mb) by (apply Z.mul_le_mono_nonneg_r; lia).
    lia.
  - change (2 ^ (54 - 53)) with 2 in Hv.
    pose proof (Z_div_mod_eq_full q 2). pose proof (Z.mod_pos_bound q 2 ltac:(lia)).
    assert ((q - 1) * Zpos mb <= M * Zpos mb) by (apply Z.mul_le_mono_nonneg_r; lia).
    assert (M * Zpos mb <= (q + 2) * Zpos mb) by (apply Z.mul_le_mono_nonneg_r; lia).
    lia.
Qed.

(** The product of two normal floats is within [2^53] units of the
    exact 106-bit product of the mantissas. *)
Lemma SFmul_spec ma ea mb eb :
  2 ^ 52 <= Zpos ma < 2 ^ 53 -> 2 ^ 52 <= Zpos mb < 2 ^ 53 ->
  -400 <= ea <= 400 -> -400 <= eb <= 400 ->
  exists m e,
    SF64mul (S754_finite false ma ea) (S754_finite false mb eb) = S754_finite false m e /\
    2 ^ 52 <= Zpos m < 2 ^ 53 /\
    ea + eb + 52 <= e <= ea + eb + 54 /\
    - 2 ^ 53 <= Zpos m * 2 ^ (e - (ea + eb)) - Zpos ma * Zpos mb <= 2 ^ 53.
Proof.
  intros Ha Hb Hea Heb.
  unfold SF64mul, SFmul. simpl xorb.
  rewrite Pos2Z.inj_mul.
  remember (Zpos ma * Zpos mb) as a eqn:Ea.
  assert (Hq : 2 ^ 104 <= a < 2 ^ 106).
  { change (2 ^ 104) with (2 ^ 52 * 2 ^ 52). change (2 ^ 106) with (2 ^ 53 * 2 ^ 53). nia. }
  assert (Hdq : Zdigits2 a = 105 \/ Zdigits2 a = 106).
  { destruct (Z_lt_le_dec a (2 ^ 105)); [left|right]; apply Zdigits2_unique; lia. }
  destruct (round_aux_spec a (ea + eb) loc_Exact)
    as (m & e & E & Hm & He & Hv & _); try lia.
  exists m, e. rewrite E. split; [reflexivity|]. split; [lia|]. split; [lia|].
  remember (Zpos m * 2 ^ (e - (ea + eb))) as M eqn:EM.
  destruct Hdq as [Hd|Hd]; rewrite Hd in Hv;
    [change (105 - 53) with 52 in Hv | change (106 - 53) with 53 in Hv].
  - pose proof (Z_div_mod_eq_full a (2 ^ 52)). pose proof (Z.mod_pos_bound a (2 ^ 52) ltac:(lia)).
    lia.
  - pose proof (Z_div_mod_eq_full a (2 ^ 53)). pose proof (Z.mod_pos_bound a (2 ^ 53) ltac:(lia)).
    lia.
Qed.

(** *** The index

    [TARGET_SAMPLES] as a float: [52 = (13 * 2^49) * 2^-47]. *)
Lemma Prim2SF_52 :
  Prim2SF (of_nat TARGET_SAMPLES) = S754_finite false (13 * 2 ^ 49)%positive (-47).
Proof. vm_compute. reflexivity. Qed.

Lemma pow2_le_inv a b : 0 <= a -> 0 <= b -> 2 ^ a <= 2 ^ b -> a <= b.
Proof.
  intros Ha Hb H. destruct (Z_le_gt_dec a b); [assumption|exfalso].
  assert (2 ^ b < 2 ^ a) by (apply Z.pow_lt_mono_r; lia). lia.
Qed.

Lemma mul_abs_bound x y a b :
  - a <= x <= a -> - b <= y <= b -> - (a * b) <= x * y <= a * b.
Proof.
  intros Hx Hy. apply Z.abs_le. rewrite Z.abs_mul.
  apply Z.mul_le_mono_nonneg; try apply Z.abs_nonneg; apply Z.abs_le; lia.
Qed.

(** The two rounding errors together stay below one unit of the
    scaled index: with [A = 2^-eL], [B = 2^-ei], [N1], [N2] the scales of
    the rounded quotient and product and [D] the weight of one unit. *)
Lemma index_arith L i A B N1 N2 D ms mv :
  0 < L -> 0 < i <= 51 ->
  2 ^ 21 <= A -> 2 ^ 47 <= B -> 1 <= N1 <= 4 -> 0 < N2 -> 0 < D ->
  64 * A * B = D * N1 * N2 ->
  - 104 <= 52 * (ms * N1) - 64 * (L * A) <= 104 ->
  - 2 ^ 53 <= mv * N2 - (i * B) * ms <= 2 ^ 53 ->
  - D < 52 * mv - i * L * D < D.
Proof.
  intros HL Hi HA HB HN1 HN2 HD H5 H3 H4.
  remember (52 * (ms * N1) - 64 * (L * A)) as E2 eqn:EE2.
  remember (mv * N2 - i * B * ms) as E1 eqn:EE1.
  assert (Hid : (52 * mv - i * L * D) * (N1 * N2) = 52 * N1 * E1 + i * B * E2).
  { transitivity (52 * mv * N1 * N2 - i * L * (D * N1 * N2)); [ring|].
    rewrite <- H5. subst E1 E2. ring. }
  assert (Hb1 : - (52 * 4 * 2 ^ 53) <= 52 * N1 * E1 <= 52 * 4 * 2 ^ 53).
  { pose proof (mul_abs_bound N1 E1 4 (2 ^ 53) ltac:(lia) ltac:(lia)). lia. }
  assert (Hb2 : - (51 * 104 * B) <= i * B * E2 <= 51 * 104 * B).
  { pose proof (mul_abs_bound i E2 51 104 ltac:(lia) ltac:(lia)) as Hie.
    pose proof (mul_abs_bound (i * E2) B (51 * 104) B Hie ltac:(lia)) as Hieb.
    replace (i * B * E2) with (i * E2 * B) by ring.
    assert (0 <= B * B) by (apply Z.mul_nonneg_nonneg; lia).
    destruct (Z_le_gt_dec 0 (i * E2)).
    - split; [assert (0 <= i * E2 * B) by (apply Z.mul_nonneg_nonneg; lia); lia|].
      replace (51 * 104 * B) with (51 * 104 * B) by ring.
      apply Z.mul_le_mono_nonneg_r; lia.
    - split.
      + replace (- (51 * 104 * B)) with ((- (51 * 104)) * B) by ring.
        apply Z.mul_le_mono_nonneg_r; lia.
      + assert (i * E2 * B <= 0) by (apply Z.mul_nonpos_nonneg; lia). lia. }
  assert (HNN : 0 < N1 * N2) by (apply Z.mul_pos_pos; lia).
  assert (Hbig : 52 * 4 * 2 ^ 53 + 51 * 104 * B < D * (N1 * N2)).
  { replace (D * (N1 * N2)) with (64 * A * B) by (rewrite H5; ring).
    assert (2 ^ 21 * B <= A * B) by (apply Z.mul_le_mono_nonneg_r; lia). lia. }
  split.
  - apply Z.mul_lt_mono_pos_r with (p := N1 * N2); [assumption|]. lia.
  - apply Z.mul_lt_mono_pos_r with (p := N1 * N2); [assumption|]. lia.
Qed.

(** A value within less than [1/52] of [P/52] floors to
    [floor(P/52)], or to one less when [P/52] is an integer. *)
Lemma floor_from_bound P D mv k q :
  0 < D -> - D < 52 * mv - P * D < D ->
  k = mv / D -> q = P / 52 ->
  q - 1 <= k <= q /\ (P mod 52 <> 0 -> k = q).
Proof.
  intros HD Hb -> ->.
  pose proof (Z_div_mod_eq_full P 52) as HP.
  pose proof (Z.mod_pos_bound P 52 ltac:(lia)) as HPm.
  remember (P / 52) as q. remember (P mod 52) as r.
  assert (Hlo : (q - 1) * D < mv).
  { assert ((52 * q - 52) * D <= (P - 1) * D) by (apply Z.mul_le_mono_nonneg_r; lia). lia. }
  assert (Hhi : mv < (q + 1) * D).
  { assert ((P + 1) * D <= (52 * q + 52) * D) by (apply Z.mul_le_mono_nonneg_r; lia). lia. }
  split; [split|].
  - apply Z.div_le_lower_bound; lia.
  - enough (mv / D < q + 1) by lia. apply Z.div_lt_upper_bound; lia.
  - intros Hr. assert (q * D < mv).
    { assert (52 * q * D <= (P - 1) * D) by (apply Z.mul_le_mono_nonneg_r; lia). lia. }
    assert (q <= mv / D) by (apply Z.div_le_lower_bound; lia).
    assert (mv / D < q + 1) by (apply Z.div_lt_upper_bound; lia). lia.
Qed.

(** [Math.floor(i * (L / 52))] for an array length [L] and a slot
    [i < 52]. *)
Lemma stride_index_spec (L i : nat) :
  (52 < L)%nat -> Z.of_nat L < 2 ^ 32 -> (i < 52)%nat ->
  exists k,
    stride_index L i = Some k /\
    Z.of_nat (i * L) / 52 - 1 <= k <= Z.of_nat (i * L) / 52 /\
    (Z.of_nat (i * L) mod 52 <> 0 -> k = Z.of_nat (i * L) / 52) /\
    (i = 0%nat -> k = 0).
Proof.
  intros HL HL32 Hi.
  unfold stride_index, Math_floor, step_of.
  rewrite FloatAxioms.mul_spec, FloatAxioms.div_spec, Prim2SF_52.
  destruct (Prim2SF_of_uint63_nat L) as (mL & eL & EL & HmL & HeL & HvL); [lia|].
  unfold of_nat at 2. rewrite EL.
  destruct (SFdiv_spec mL eL (13 * 2 ^ 49)%positive (-47)) as (ms & es & Es & Hms & Hes & Hvs);
    try lia.
  rewrite Es.
  destruct i as [|i'].
  - (* slot 0 *)
    exists 0. split; [reflexivity|].
    change (Z.of_nat (0 * L)) with 0. change (0 / 52) with 0.
    split; [lia|]. split; intros; reflexivity.
  - remember (S i') as i eqn:Ei.
    destruct (Prim2SF_of_uint63_nat i) as (mi & ei & Ei' & Hmi & Hei & Hvi); [lia|].
    unfold of_nat. rewrite Ei'.
    destruct (SFmul_spec mi ei ms es) as (mv & ev & Ev & Hmv & Hev & Hvv); try lia.
    rewrite Ev. simpl SFfloor. unfold cond_Zopp.
    (* exponent bounds *)
    assert (HA : 2 ^ 21 <= 2 ^ (- eL)).
    { destruct (Z_le_gt_dec 21 (- eL)) as [|Hgt]; [apply Z.pow_le_mono_r; lia|exfalso].
      assert (2 ^ (- eL) <= 2 ^ 20) by (apply Z.pow_le_mono_r; lia).
      assert (Z.of_nat L * 2 ^ (- eL) <= 2 ^ 32 * 2 ^ 20) by (apply Z.mul_le_mono_nonneg; lia).
      change (2 ^ 32 * 2 ^ 20) with (2 ^ 52) in *. 
      assert (Z.of_nat L * 2 ^ (- eL) < 2 ^ 32 * 2 ^ (-eL)) by (apply Z.mul_lt_mono_pos_r; [apply pow2_pos|]; lia).
      assert (2 ^ 32 * 2 ^ (- eL) <= 2 ^ 32 * 2 ^ 20) by (apply Z.mul_le_mono_nonneg_l; lia).
      change (2 ^ 32 * 2 ^ 20) with (2 ^ 52) in *. lia. }
    assert (HeL' : 21 <= - eL) by (apply pow2_le_inv; lia).
    assert (HB : 2 ^ 47 <= 2 ^ (- ei)).
    { destruct (Z_le_gt_dec 47 (- ei)) as [|Hgt]; [apply Z.pow_le_mono_r; lia|exfalso].
      assert (2 ^ (- ei) <= 2 ^ 46) by (apply Z.pow_le_mono_r; lia).
      assert (Z.of_nat i * 2 ^ (- ei) <= 51 * 2 ^ 46) by (apply Z.mul_le_mono_nonneg; lia).
      lia. }
    assert (Hei' : 47 <= - ei) by (apply pow2_le_inv; lia).
    remember (es - (eL - -47 - 53)) as n1 eqn:En1.
    remember (ev - (ei + es)) as n2 eqn:En2.
    assert (Hev' : ev < 0) by lia.
    assert (Hsh : Z.shiftl (Zpos mv) ev = Zpos mv / 2 ^ (- ev))
      by (rewrite <- Z.shiftl_div_pow2 by lia; f_equal; lia).
    rewrite Hsh.
    assert (HN1 : 1 <= 2 ^ n1 <= 4).
    { split; [pose proof (pow2_pos n1); lia|].
      change 4 with (2 ^ 2). apply Z.pow_le_mono_r; lia. }
    assert (H5 : 64 * 2 ^ (- eL) * 2 ^ (- ei) = 2 ^ (- ev) * 2 ^ n1 * 2 ^ n2).
    { change 64 with (2 ^ 6). rewrite <- !Z.pow_add_r by lia. f_equal. lia. }
    assert (Hbound : - 2 ^ (- ev) < 52 * Zpos mv - Z.of_nat i * Z.of_nat L * 2 ^ (- ev) < 2 ^ (- ev)).
    { apply (index_arith (Z.of_nat L) (Z.of_nat i) (2 ^ (- eL)) (2 ^ (- ei)) (2 ^ n1) (2 ^ n2)
               (2 ^ (- ev)) (Zpos ms) (Zpos mv));
        try (apply pow2_pos; lia); lia. }
    destruct (floor_from_bound (Z.of_nat i * Z.of_nat L) (2 ^ (- ev)) (Zpos mv)
                (Zpos mv / 2 ^ (- ev)) ((Z.of_nat i * Z.of_nat L) / 52))
      as [Hk Hk']; try reflexivity; try lia; try (apply pow2_pos; lia).
    exists (Zpos mv / 2 ^ (- ev)). rewrite Nat2Z.inj_mul.
    split; [reflexivity|]. split; [lia|]. split; [assumption|]. lia.
Qed.

End FloatFacts.

(** ** The downsample branch, entry by entry *)

Section DownsampleFacts.

Lemma array_get_nat (a : list Elem) (k : nat) :
  array_get a (Some (Z.of_nat k)) = nth k a None.
Proof.
  unfold array_get.
  destruct (Z.ltb_spec (Z.of_nat k) 0) as [Hneg|_]; [lia|].
  rewrite Nat2Z.id.
  destruct (nth_error a k) as [v|] eqn:E.
  - symmetry. now apply nth_error_nth.
  - symmetry. apply nth_overflow. now apply nth_error_None.
Qed.

Lemma downsample_nth (a : list Elem) (i : nat) :
  i < TARGET_SAMPLES ->
  nth i (downsample a) None = array_get a (stride_index (length a) i).
Proof.
  intros Hi. rewrite downsample_map.
  apply nth_error_nth.
  rewrite nth_error_map, nth_error_nth' with (d := 0) by (rewrite length_seq; exact Hi).
  rewrite seq_nth by exact Hi. reflexivity.
Qed.

Lemma normalize_downsample_long (a : list Elem) :
  TARGET_SAMPLES < length a -> normalize Downsample a = downsample a.
Proof.
  intros H. simpl. unfold normalize_downsample.
  replace (length a <? TARGET_SAMPLES) with false
    by (symmetry; apply Nat.ltb_ge; lia).
  replace (TARGET_SAMPLES <? length a) with true
    by (symmetry; apply Nat.ltb_lt; lia).
  reflexivity.
Qed.

(** The index of slot [i] as a natural number. *)
Lemma stride_index_nat (len i : nat) :
  TARGET_SAMPLES < len -> (Z.of_nat len < 2 ^ 32)%Z -> i < TARGET_SAMPLES ->
  exists k : nat,
    stride_index len i = Some (Z.of_nat k) /\
    k < len /\
    (k = i * len / 52 \/ (S k = i * len / 52 /\ (i * len) mod 52 = 0)) /\
    (i = 0 -> k = 0).
Proof.
  unfold TARGET_SAMPLES. intros Hlen H32 Hi.
  destruct (FloatFacts.stride_index_spec len i Hlen H32 Hi)
    as (kz & E & Hk & Hexact & Hzero).
  assert (Hq : (Z.of_nat (i * len) / 52 = Z.of_nat (i * len / 52))%Z)
    by (rewrite Nat2Z.inj_div; reflexivity).
  assert (Hr : (Z.of_nat (i * len) mod 52 = Z.of_nat ((i * len) mod 52))%Z)
    by (rewrite Nat2Z.inj_mod; reflexivity).
  assert (Hlt : i * len / 52 < len)
    by (apply Nat.Div0.div_lt_upper_bound; nia).
  assert (Hpos : (0 <= kz)%Z).
  { destruct i as [|i']; [rewrite Hzero; [lia|reflexivity]|].
    assert (1 <= S i' * len / 52) by (apply Nat.div_le_lower_bound; nia).
    lia. }
  exists (Z.to_nat kz). rewrite Z2Nat.id by exact Hpos.
  split; [exact E|]. split; [lia|]. split.
  - destruct (Nat.eq_dec ((i * len) mod 52) 0) as [Hz|Hnz].
    + destruct (Z.eq_dec kz (Z.of_nat (i * len / 52))); [left|right]; lia.
    + left. assert (kz = Z.of_nat (i * len / 52)) by (rewrite <- Hq; apply Hexact; lia).
      lia.
  - intros Hi0. rewrite (Hzero Hi0). reflexivity.
Qed.

(** Later slots read strictly later entries. *)
Lemma stride_index_increasing (len i j : nat) (ki kj : Z) :
  TARGET_SAMPLES < len -> (Z.of_nat len < 2 ^ 32)%Z ->
  i < j -> j < TARGET_SAMPLES ->
  stride_index len i = Some ki -> stride_index len j = Some kj ->
  (ki < kj)%Z.
Proof.
  unfold TARGET_SAMPLES. intros Hlen H32 Hij Hj Ei Ej.
  destruct (FloatFacts.stride_index_spec len i Hlen H32 ltac:(lia))
    as (ki' & Ei' & Hki & _ & _).
  destruct (FloatFacts.stride_index_spec len j Hlen H32 Hj)
    as (kj' & Ej' & Hkj & Hexact & _).
  rewrite Ei in Ei'. rewrite Ej in Ej'.
  injection Ei' as <-. injection Ej' as <-.
  assert (Hstep : (Z.of_nat (i * len) + 53 <= Z.of_nat (j * len))%Z) by nia.
  remember (Z.of_nat (i * len)) as Pi. remember (Z.of_nat (j * len)) as Pj.
  clear HeqPi HeqPj Ei Ej.
  destruct (Z.eq_dec (Pj mod 52) 0) as [Hz|Hnz].
  - pose proof (Z_div_mod_eq_full Pj 52). pose proof (Z_div_mod_eq_full Pi 52).
    pose proof (Z.mod_pos_bound Pi 52 ltac:(lia)). lia.
  - specialize (Hexact Hnz).
    pose proof (Z_div_mod_eq_full Pj 52). pose proof (Z_div_mod_eq_full Pi 52).
    pose proof (Z.mod_pos_bound Pi 52 ltac:(lia)).
    pose proof (Z.mod_pos_bound Pj 52 ltac:(lia)). lia.
Qed.

End DownsampleFacts.

(** ** Picking entries at increasing indices gives a subsequence *)

Section SubseqFacts.
Context {A : Type} (d : A).

Lemma map_nth_cons (x : A) (a : list A) (ks : list nat) :
  Forall (fun k => 1 <= k) ks ->
  map (fun k => nth k (x :: a) d) ks = map (fun k => nth k a d) (map Nat.pred ks).
Proof.
  induction 1 as [|k ks Hk _ IH]; simpl; [reflexivity|].
  rewrite <- IH. destruct k; [lia|reflexivity].
Qed.

Lemma sorted_map_pred (ks : list nat) :
  Forall (fun k => 1 <= k) ks ->
  StronglySorted lt ks -> StronglySorted lt (map Nat.pred ks).
Proof.
  intros Hpos Hs. induction Hs as [|k ks Hs IH Hall]; simpl; constructor.
  - apply IH. now inversion Hpos.
  - inversion Hpos as [|? ? Hk Hks]; subst.
    rewrite Forall_forall in *. intros k' Hin.
    apply in_map_iff in Hin as (k0 & <- & Hin0).
    specialize (Hall _ Hin0). specialize (Hks _ Hin0). lia.
Qed.

Lemma pick_increasing_Subseq (a : list A) :
  forall ks,
    StronglySorted lt ks -> Forall (fun k => k < length a) ks ->
    Subseq (map (fun k => nth k a d) ks) a.
Proof.
  induction a as [|x a IH]; intros ks Hs Hb.
  - destruct ks as [|k ks]; [constructor|].
    inversion Hb; subst. simpl in *. lia.
  - destruct ks as [|k ks]; [constructor|].
    inversion Hs as [|? ? Hs' Hall]; subst.
    inversion Hb as [|? ? Hk Hb']; subst.
    destruct k as [|k0].
    + (* the first entry is taken *)
      assert (Hpos : Forall (fun k => 1 <= k) ks)
        by (rewrite Forall_forall in *; intros k' Hin; specialize (Hall _ Hin); lia).
      change (map (fun k => nth k (x :: a) d) (0 :: ks))
        with (x :: map (fun k => nth k (x :: a) d) ks).
      rewrite map_nth_cons by exact Hpos.
      apply Subseq_take, IH; [now apply sorted_map_pred|].
      rewrite Forall_forall in *. intros k' Hin.
      apply in_map_iff in Hin as (k1 & <- & Hin1).
      specialize (Hb' _ Hin1). specialize (Hpos _ Hin1). simpl in Hb'. lia.
    + (* the first entry is dropped *)
      assert (Hpos : Forall (fun k => 1 <= k) (S k0 :: ks)).
      { constructor; [lia|].
        rewrite Forall_forall in *; intros k' Hin; specialize (Hall _ Hin); lia. }
      rewrite map_nth_cons by exact Hpos.
      apply Subseq_skip, IH; [now apply sorted_map_pred|].
      rewrite Forall_forall in *. intros k' Hin.
      apply in_map_iff in Hin as (k1 & <- & Hin1).
      specialize (Hb _ Hin1). specialize (Hpos _ Hin1). simpl in Hb. lia.
Qed.

Lemma sorted_map_seq (f : nat -> nat) (s n : nat) :
  (forall i j, s <= i -> i < j -> j < s + n -> f i < f j) ->
  StronglySorted lt (map f (seq s n)).
Proof.
  revert s. induction n as [|n IH]; intros s Hf; simpl; constructor.
  - apply IH. intros i j Hi Hij Hj. apply Hf; lia.
  - rewrite Forall_forall. intros k Hin.
    apply in_map_iff in Hin as (j & <- & Hin).
    apply in_seq in Hin. apply Hf; lia.
Qed.

End SubseqFacts.

(** ** Properties of the normalization *)

(** C1. Whatever the length of the collected window, and for both
    oversupply policies of [main.js] (tail truncation, uniform-stride
    downsample), the normalization of [stopCollectingData] yields exactly
    [TARGET_SAMPLES] = 52 entries. *)
Theorem normalize_length_target :
  forall (p : Policy) (accelData : list Elem),
    length (normalize p accelData) = TARGET_SAMPLES /\ TARGET_SAMPLES = 52.
Proof.
  intros p a. split; [apply normalize_length | reflexivity].
Qed.

(** C9. Normalizing twice is normalizing once, for both policies: the
    first result has length 52 and takes neither branch the second
    time. *)
Theorem normalize_idempotent :
  forall (p : Policy) (accelData : list Elem),
    normalize p (normalize p accelData) = normalize p accelData.
Proof.
  intros p a. apply normalize_fixed, normalize_length.
Qed.

(** C7. A window of fewer than 52 entries is kept in order and followed
    by [(0,0,0)] entries up to length 52; a window of 40 entries comes
    out with length 52 and twelve [(0,0,0)] entries at the tail. *)
Theorem normalize_pads_tail :
  forall (p : Policy) (accelData : list Elem),
    length accelData < TARGET_SAMPLES ->
    firstn (length accelData) (normalize p accelData) = accelData /\
    skipn (length accelData) (normalize p accelData)
      = repeat (Some zero_reading) (TARGET_SAMPLES - length accelData) /\
    (length accelData = 40 ->
       length (normalize p accelData) = 52 /\
       skipn 40 (normalize p accelData) = repeat (Some zero_reading) 12).
Proof.
  intros p a H. rewrite (normalize_pad p a H).
  rewrite firstn_app, Nat.sub_diag, firstn_all, firstn_O, app_nil_r.
  rewrite skipn_app, Nat.sub_diag, skipn_all, skipn_O.
  split; [reflexivity|]. split; [reflexivity|].
  intros H40. rewrite length_app, repeat_length, H40.
  split; [reflexivity|].
  rewrite skipn_app, H40, Nat.sub_diag, skipn_O.
  rewrite (skipn_all2 a) by lia. reflexivity.
Qed.

Lemma normalize_pads_tail_witness :
  length (zeros 40) < TARGET_SAMPLES /\
  length (normalize Truncate (zeros 40)) = 52 /\
  skipn 40 (normalize Truncate (zeros 40)) = repeat (Some zero_reading) 12.
Proof.
  assert (H : length (zeros 40) < TARGET_SAMPLES) by (vm_compute; lia).
  split; [exact H|].
  exact (proj2 (proj2 (normalize_pads_tail Truncate (zeros 40) H)) eq_refl).
Defined.

(** C2, as stated, fails: with 60 readings [(k,k,k)] the 13th slot reads
    entry 14, while [floor(13 * 60 / 52)] is 15. The quotient [60 / 52]
    is rounded down to binary64, and so is its product with 13. *)
Lemma downsample_not_exact_floor :
  13 * 60 / 52 = 15 /\
  stride_index 60 13 = Some 14%Z /\
  nth 13 (normalize Downsample (sequential 60)) None
    = nth 14 (sequential 60) None /\
  nth 13 (normalize Downsample (sequential 60)) None
    <> nth (13 * 60 / 52) (sequential 60) None.
Proof.
  split; [reflexivity|]. split; [vm_compute; reflexivity|].
  split; [vm_compute; reflexivity|].
  intros H.
  assert (E : match nth 13 (normalize Downsample (sequential 60)) None with
              | Some r => match x r with
                          | JsNumber n => Prim2SF n
                          | _ => S754_nan
                          end
              | None => S754_nan
              end
              = match nth (13 * 60 / 52) (sequential 60) None with
                | Some r => match x r with
                            | JsNumber n => Prim2SF n
                            | _ => S754_nan
                            end
                | None => S754_nan
                end) by (rewrite H; reflexivity).
  vm_compute in E. discriminate E.
Qed.

(** C2, amended. In the downsample branch slot [i] holds
    [input[Math.floor(i * step)]] with [step = L / 52] and the product
    both rounded to binary64; that index is [floor(i * L / 52)], or one
    less, which can happen only when 52 divides [i * L]. Slot 0 holds
    entry 0, and for 100 readings [(k,k,k)] slot 1 holds entry 1 and
    slot 51 holds entry 98. *)
Theorem downsample_entry_spec :
  (forall (accelData : list Elem) (i : nat),
     TARGET_SAMPLES < length accelData ->
     (Z.of_nat (length accelData) < 2 ^ 32)%Z ->
     i < TARGET_SAMPLES ->
     exists k : nat,
       stride_index (length accelData) i = Some (Z.of_nat k) /\
       nth i (normalize Downsample accelData) None = nth k accelData None /\
       (k = i * length accelData / 52 \/
        (S k = i * length accelData / 52 /\ (i * length accelData) mod 52 = 0)) /\
       (i = 0 -> k = 0)) /\
  nth 0 (normalize Downsample (sequential 100)) None = nth 0 (sequential 100) None /\
  nth 1 (normalize Downsample (sequential 100)) None = nth 1 (sequential 100) None /\
  nth 51 (normalize Downsample (sequential 100)) None = nth 98 (sequential 100) None.
Proof.
  split.
  - intros a i Hlen H32 Hi.
    destruct (stride_index_nat _ _ Hlen H32 Hi) as (k & E & Hk & Hq & H0).
    exists k. split; [exact E|]. split; [|split; assumption].
    rewrite normalize_downsample_long by exact Hlen.
    rewrite downsample_nth by exact Hi.
    rewrite E. apply array_get_nat.
  - repeat split; vm_compute; reflexivity.
Qed.

Lemma downsample_entry_spec_witness :
  exists k : nat,
    stride_index (length (sequential 60)) 13 = Some (Z.of_nat k) /\
    nth 13 (normalize Downsample (sequential 60)) None = nth k (sequential 60) None /\
    (k = 13 * length (sequential 60) / 52 \/
     (S k = 13 * length (sequential 60) / 52 /\
      (13 * length (sequential 60)) mod 52 = 0)) /\
    (13 = 0 -> k = 0).
Proof.
  apply (proj1 downsample_entry_spec (sequential 60) 13).
  - vm_compute. lia.
  - vm_compute. reflexivity.
  - vm_compute. lia.
Defined.

(** C10. In the downsample branch every index [Math.floor(i * step)],
    [i < 52], lies in [0, L-1], so each read is inside the window; the
    indices increase strictly with [i], and the result is a subsequence
    of the window in the same order. The length is that of a JavaScript
    array, below [2^32]. *)
Theorem downsample_indices_in_bounds :
  forall accelData : list Elem,
    TARGET_SAMPLES < length accelData ->
    (Z.of_nat (length accelData) < 2 ^ 32)%Z ->
    (forall i, i < TARGET_SAMPLES ->
       exists (k : nat) (v : Elem),
         stride_index (length accelData) i = Some (Z.of_nat k) /\
         k <= length accelData - 1 /\
         nth_error accelData k = Some v /\
         array_get accelData (stride_index (length accelData) i) = v) /\
    (forall i j ki kj, i < j -> j < TARGET_SAMPLES ->
       stride_index (length accelData) i = Some ki ->
       stride_index (length accelData) j = Some kj ->
       (0 <= ki < kj)%Z) /\
    Subseq (downsample accelData) accelData.
Proof.
  intros a Hlen H32.
  set (idx := fun i => match stride_index (length a) i with
                       | Some k => Z.to_nat k
                       | None => 0
                       end).
  assert (Hidx : forall i, i < TARGET_SAMPLES ->
                   stride_index (length a) i = Some (Z.of_nat (idx i)) /\
                   idx i < length a).
  { intros i Hi. destruct (stride_index_nat _ _ Hlen H32 Hi) as (k & E & Hk & _).
    unfold idx. rewrite E, Nat2Z.id. split; [reflexivity|exact Hk]. }
  split; [|split].
  - intros i Hi. destruct (Hidx i Hi) as [E Hk].
    destruct (nth_error a (idx i)) as [v|] eqn:Ev;
      [|apply nth_error_None in Ev; lia].
    exists (idx i), v. split; [exact E|]. split; [lia|]. split; [exact Ev|].
    rewrite E, array_get_nat. now apply nth_error_nth.
  - intros i j ki kj Hij Hj Ei Ej. split.
    + destruct (Hidx i ltac:(lia)) as [E _]. rewrite E in Ei.
      injection Ei as <-. lia.
    + exact (stride_index_increasing _ _ _ _ _ Hlen H32 Hij Hj Ei Ej).
  - rewrite downsample_map.
    replace (map (fun i => array_get a (stride_index (length a) i)) (seq 0 TARGET_SAMPLES))
      with (map (fun k => nth k a None) (map idx (seq 0 TARGET_SAMPLES))).
    + apply pick_increasing_Subseq.
      * apply sorted_map_seq. intros i j _ Hij Hj.
        destruct (Hidx i ltac:(lia)) as [Ei _]. destruct (Hidx j Hj) as [Ej _].
        pose proof (stride_index_increasing _ _ _ _ _ Hlen H32 Hij Hj Ei Ej). lia.
      * rewrite Forall_forall. intros k Hin.
        apply in_map_iff in Hin as (i & <- & Hin). apply in_seq in Hin.
        apply Hidx. lia.
    + rewrite map_map. apply map_ext_in. intros i Hin. apply in_seq in Hin.
      destruct (Hidx i ltac:(lia)) as [E _]. rewrite E. symmetry. apply array_get_nat.
Qed.

Lemma downsample_indices_in_bounds_witness :
  Subseq (downsample (sequential 60)) (sequential 60).
Proof.
  apply (downsample_indices_in_bounds (sequential 60)).
  - vm_compute. lia.
  - vm_compute. reflexivity.
Defined.

(** ** The listener and the cycle of [main.js] *)

Section CycleFacts.
Import Main.

Lemma listeners_cases (l : list Callback) :
  length l <= 1 -> l = [] \/ l = [HandleMotionEvent].
Proof.
  destruct l as [|[] [|c l]]; simpl; intros H; auto; lia.
Qed.

Lemma listener_ok_cases (s : State) :
  listener_ok s ->
  listeners s = [] \/
  (listeners s = [HandleMotionEvent] /\ 1 <= timers s /\ continueLoop s = true).
Proof.
  intros [H1 H2]. unfold attached in *.
  destruct (listeners_cases (listeners s) H1) as [E|E]; [now left|right].
  split; [exact E|]. apply H2. now rewrite E.
Qed.

Lemma startCollectingData_ok (s : State) :
  listener_ok s -> listener_ok (startCollectingData s).
Proof.
  intros H. unfold startCollectingData.
  destruct (continueLoop s) eqn:Ec; simpl; [|exact H].
  destruct (listener_ok_cases s H) as [E|(E & _ & _)];
    unfold listener_ok, attached; simpl; rewrite E; simpl;
    (split; [lia|intros _; split; [lia|exact Ec]]).
Qed.

Lemma stopCollectingData_resume_ok (s : State) :
  listener_ok s -> listener_ok (stopCollectingData_resume s).
Proof.
  intros H. unfold stopCollectingData_resume.
  destruct (continueLoop s); [now apply startCollectingData_ok|exact H].
Qed.

Lemma detached_ok (s : State) : listeners s = [] -> listener_ok s.
Proof.
  intros E. unfold listener_ok, attached. rewrite E. simpl. split; [lia|discriminate].
Qed.

Lemma removeEventListener_detaches (l : list Callback) :
  length l <= 1 -> removeEventListener HandleMotionEvent l = [].
Proof.
  intros H. destruct (listeners_cases l H) as [->| ->]; reflexivity.
Qed.

Lemma step_listener_ok (p : Policy) (e : Event) (s : State) :
  listener_ok s -> listener_ok (step p e s).
Proof.
  intros H. pose proof H as [Hle _].
  destruct e as [| |event|r|r]; simpl.
  - (* Start *)
    unfold startContinuousLoop. apply startCollectingData_ok.
    destruct H as [H1 H2]. split; [exact H1|].
    intros Ha. split; [apply (H2 Ha)|reflexivity].
  - (* Stop *)
    apply detached_ok. simpl. now apply removeEventListener_detaches.
  - (* Motion *)
    destruct (existsb _ _); [|exact H]. exact H.
  - (* TimerFires *)
    destruct (timers s) as [|n] eqn:Et; [exact H|].
    unfold stopCollectingData, runInference. simpl.
    destruct (model s); simpl.
    + destruct r as [err|].
      * apply stopCollectingData_resume_ok, detached_ok. simpl.
        now apply removeEventListener_detaches.
      * apply detached_ok. simpl. now apply removeEventListener_detaches.
    + apply stopCollectingData_resume_ok, detached_ok. simpl.
      now apply removeEventListener_detaches.
  - (* DataSettles *)
    destruct (inferring s) as [|n] eqn:Ei; [exact H|].
    apply stopCollectingData_resume_ok.
    destruct r; exact H.
Qed.

Lemma reachable_listener_ok (p : Policy) (s : State) :
  Reachable p s -> listener_ok s.
Proof.
  induction 1 as [m|e s _ IH].
  - apply detached_ok. reflexivity.
  - now apply step_listener_ok.
Qed.

(** Once the loop flag is cleared and the listener detached, nothing
    but [startContinuousLoop] changes either. *)
Lemma step_stays_stopped (p : Policy) (e : Event) (s : State) :
  e <> Start -> continueLoop s = false -> listeners s = [] ->
  continueLoop (step p e s) = false /\ listeners (step p e s) = [] /\
  timers (step p e s) <= timers s.
Proof.
  intros He Hc Hl. destruct e as [| |event|r|r]; simpl.
  - congruence.
  - rewrite Hl. simpl. auto.
  - rewrite Hl. simpl. auto.
  - destruct (timers s) as [|n] eqn:Et; [rewrite Et; auto|].
    unfold stopCollectingData, runInference, stopCollectingData_resume. simpl.
    rewrite Hl. simpl.
    destruct (model s); simpl; [destruct r; simpl|]; rewrite ?Hc; simpl; auto.
  - destruct (inferring s) as [|n] eqn:Ei; [auto|].
    unfold stopCollectingData_resume.
    destruct r; simpl; rewrite Hc; simpl; auto.
Qed.

Lemma run_stays_stopped (p : Policy) (tr : list Event) :
  forall s,
    Forall (fun e => e <> Start) tr ->
    continueLoop s = false -> listeners s = [] ->
    continueLoop (run p tr s) = false /\ listeners (run p tr s) = [] /\
    timers (run p tr s) <= timers s.
Proof.
  induction tr as [|e tr IH]; intros s Hall Hc Hl; simpl; [auto|].
  inversion Hall as [|? ? He Hall']; subst.
  destruct (step_stays_stopped p e s He Hc Hl) as (Hc' & Hl' & Ht').
  destruct (IH (step p e s) Hall' Hc' Hl') as (Hc'' & Hl'' & Ht'').
  repeat split; try assumption. unfold run in *. lia.
Qed.

End CycleFacts.

(** ** Properties of the motion handler *)

(** In [main.js] every stored axis is a number, and an axis that is
    [null] or missing is stored as 0. *)
Lemma main_handler_defaults_axes (event : MotionEvent) (s : Main.State) :
  exists r : Reading,
    Main.accelData (Main.handleMotionEvent event s)
      = Main.accelData s ++ [Some r] /\
    (exists nx ny nz, r = mkReading (JsNumber nx) (JsNumber ny) (JsNumber nz)) /\
    (forall a, accelerationIncludingGravity event = Some a ->
       (truthy (acc_x a) = false -> x r = num 0) /\
       (truthy (acc_y a) = false -> y r = num 0) /\
       (truthy (acc_z a) = false -> z r = num 0)) /\
    (accelerationIncludingGravity event = None -> r = zero_reading).
Proof.
  exists (Main.reading_of_event event). split; [reflexivity|].
  unfold Main.reading_of_event, js_or.
  destruct (accelerationIncludingGravity event) as [[ax ay az]|]; simpl.
  - split; [|split; [|discriminate]].
    + destruct ax, ay, az; simpl;
        repeat match goal with |- context [if ?b then _ else _] => destruct b end;
        unfold num; do 3 eexists; reflexivity.
    + intros a [= <-]. simpl.
      repeat split; intros ->; reflexivity.
  - split; [unfold num; do 3 eexists; reflexivity|].
    split; [discriminate|reflexivity].
Qed.

(** C4 holds of [main.js] but not of the earlier scripts: the handler of
    the first looping script, and that of the rolling-buffer script,
    store a [null] axis as it is delivered. *)
Theorem early_handlers_store_null_axis :
  Main.accelData
    (Part000.handleMotionEvent (motion JsNull (num 1) (num 2)) (Main.init true))
    = [Some (mkReading JsNull (num 1) (num 2))] /\
  Part002.accelData
    (Part002.handleMotionEvent (of_nat 5) (motion JsNull (num 1) (num 2)) (rolling 0 0))
    = [Part002.mkTimedReading JsNull (num 1) (num 2) (of_nat 5)] /\
  Main.accelData
    (Main.handleMotionEvent (motion JsNull (num 1) (num 2)) (Main.init true))
    = [Some (mkReading (num 0) (num 1) (num 2))].
Proof.
  repeat split; vm_compute; reflexivity.
Qed.

(** C6, as stated, fails for the rolling-buffer script: with 100
    readings buffered, one more event leaves 100 entries, the oldest
    one gone. *)
Lemma rolling_buffer_drops_oldest :
  let s := rolling 0 100 in
  let s' := Part002.handleMotionEvent (of_nat 100)
              (motion (num 100) (num 100) (num 100)) s in
  length (Part002.accelData s) = 100 /\
  length (Part002.accelData s') = 100 /\
  Part002.accelData s' = Part002.accelData (rolling 1 100) /\
  hd_error (Part002.accelData s) <> hd_error (Part002.accelData s').
Proof.
  split; [reflexivity|]. split; [vm_compute; reflexivity|].
  split; [vm_compute; reflexivity|].
  intros H.
  assert (E : match hd_error (Part002.accelData (rolling 0 100)) with
              | Some r => Prim2SF (Part002.t r)
              | None => S754_nan
              end
              = match hd_error (Part002.accelData
                        (Part002.handleMotionEvent (of_nat 100)
                           (motion (num 100) (num 100) (num 100)) (rolling 0 100))) with
                | Some r => Prim2SF (Part002.t r)
                | None => S754_nan
                end) by (rewrite H; reflexivity).
  vm_compute in E. discriminate E.
Qed.

(** C6, amended. The handler of [main.js] appends every delivered
    reading at the end, with no bound on the length and no change to
    the entries already there. The handler of the rolling-buffer script
    appends the reading and then drops the oldest entry once the length
    exceeds [MAX_SAMPLES] = 100. *)
Theorem handlers_append :
  (forall (event : MotionEvent) (s : Main.State),
     Main.accelData (Main.handleMotionEvent event s)
       = Main.accelData s ++ [Some (Main.reading_of_event event)] /\
     length (Main.accelData (Main.handleMotionEvent event s))
       = S (length (Main.accelData s)) /\
     firstn (length (Main.accelData s))
            (Main.accelData (Main.handleMotionEvent event s))
       = Main.accelData s) /\
  (forall (now : float) (a : Acceleration) (s : Part002.State),
     let r := Part002.mkTimedReading (acc_x a) (acc_y a) (acc_z a) now in
     Part002.accelData (Part002.handleMotionEvent now (mkMotionEvent (Some a)) s)
       = if length (Part002.accelData s) <? 100
         then Part002.accelData s ++ [r]
         else tl (Part002.accelData s ++ [r])) /\
  Part002.MAX_SAMPLES = 100.
Proof.
  split; [|split; [|reflexivity]].
  - intros event s. simpl. unfold push. split; [reflexivity|]. split.
    + rewrite length_app. simpl. lia.
    + rewrite firstn_app, Nat.sub_diag, firstn_all. simpl. apply app_nil_r.
  - intros now a s r. unfold Part002.handleMotionEvent. simpl.
    unfold push. fold r.
    assert (E : (Part002.MAX_SAMPLES <? length (Part002.accelData s ++ [r]))
                = negb (length (Part002.accelData s) <? 100)).
    { rewrite length_app. simpl. change Part002.MAX_SAMPLES with 100.
      destruct (Nat.ltb_spec (length (Part002.accelData s)) 100);
        [apply Nat.ltb_ge|apply Nat.ltb_lt]; simpl; lia. }
    destruct (Part002.number_of (acc_x a)), (Part002.number_of (acc_y a)),
      (Part002.number_of (acc_z a)); simpl; rewrite E;
      destruct (length (Part002.accelData s) <? 100); reflexivity.
Qed.

(** ** Properties of the cycle *)

(** In [main.js] a failed inference is reported and the next window is
    armed all the same: [runInference] returns when the model is missing
    and catches what [predict] or [data()] throws. *)
Lemma main_failed_inference_rearms (p : Policy) (s : Main.State) (n : nat) :
  listener_ok s -> Main.continueLoop s = true ->
  (forall r, Main.timers s = S n ->
     Main.model s = false \/ (exists err, r = PredictThrows err) ->
     let s' := Main.step p (Main.TimerFires r) s in
     Main.timers s' = S n /\ attached s' = 1 /\ Main.accelData s' = [] /\
     Main.unhandled s' = Main.unhandled s /\
     (Main.status s' = StatusModelNotLoaded \/
      exists err, Main.status s' = StatusError err)) /\
  (forall err, Main.inferring s = S n ->
     let s' := Main.step p (Main.DataSettles (DataRejects err)) s in
     Main.timers s' = S (Main.timers s) /\ attached s' = 1 /\
     Main.accelData s' = [] /\ Main.inferring s' = n /\
     Main.unhandled s' = Main.unhandled s /\
     Main.status s' = StatusError err).
Proof.
  intros Hok Hc. pose proof Hok as [Hle _]. split.
  - intros r Ht Hfail. simpl. rewrite Ht.
    unfold Main.stopCollectingData, Main.runInference,
      Main.stopCollectingData_resume, Main.startCollectingData, attached.
    simpl. rewrite (removeEventListener_detaches _ Hle).
    destruct (Main.model s) eqn:Em; simpl.
    + destruct Hfail as [Hm|[err ->]]; [discriminate|].
      simpl. rewrite Hc. simpl. repeat split. right. eauto.
    + rewrite Hc. simpl. repeat split. now left.
  - intros err Hi. simpl. rewrite Hi.
    unfold Main.stopCollectingData_resume, Main.startCollectingData, attached.
    simpl. rewrite Hc. simpl.
    destruct (listener_ok_cases s Hok) as [E|(E & _ & _)]; rewrite E; simpl;
      repeat split.
Qed.

(** C3 fails for the first looping script: [runInference] has no [try],
    so an error thrown by [model.predict] rejects its promise, the [then]
    callback that starts the next window never runs, and the error is
    left unhandled. The loop flag is still set, yet no timer is pending
    and no listener is attached, and no later sensor, timer or promise
    event changes that. *)
Theorem part000_failed_predict_stalls :
  let s0 := Part000.startLoop (Main.init true) in
  let s1 := Part000.step (Main.TimerFires (PredictThrows (OpaqueError 1))) s0 in
  Main.timers s0 = 1 /\ attached s0 = 1 /\
  Main.continueLoop s1 = true /\
  Main.timers s1 = 0 /\ attached s1 = 0 /\ Main.inferring s1 = 0 /\
  Main.unhandled s1 = [OpaqueError 1] /\
  (forall event, Part000.step (Main.Motion event) s1 = s1) /\
  (forall r, Part000.step (Main.TimerFires r) s1 = s1) /\
  (forall r, Part000.step (Main.DataSettles r) s1 = s1) /\
  (let s1' := Main.step Truncate (Main.TimerFires (PredictThrows (OpaqueError 1)))
                (Main.startContinuousLoop (Main.init true)) in
   Main.timers s1' = 1 /\ attached s1' = 1 /\ Main.unhandled s1' = []).
Proof.
  vm_compute. repeat split.
Qed.

(** C5, as stated, fails: [startContinuousLoop] has no guard. Called
    while a window is being collected it clears the buffer again and
    schedules a second timer; called while an inference is in flight it
    starts a window at once, and the inference's completion then starts
    another one on top of it. *)
Lemma restart_while_armed_resets :
  let ev := motion (num 1) (num 2) (num 3) in
  let armed := Main.run Downsample [Main.Start; Main.Motion ev] (Main.init true) in
  let inferring :=
    Main.run Downsample [Main.Start; Main.TimerFires PredictReturns] (Main.init true) in
  (attached armed = 1 /\ Main.timers armed = 1 /\ length (Main.accelData armed) = 1 /\
   length (Main.accelData (Main.startContinuousLoop armed)) = 0 /\
   Main.timers (Main.startContinuousLoop armed) = 2) /\
  (Main.inferring inferring = 1 /\ Main.timers inferring = 0 /\
   Main.timers (Main.startContinuousLoop inferring) = 1 /\
   Main.timers
     (Main.run Downsample [Main.Start; Main.DataSettles (DataResolves [])] inferring) = 2).
Proof.
  vm_compute. repeat split.
Qed.

(** C5, amended. [startContinuousLoop] is never rejected: in every
    reachable state it clears the buffer and schedules one more timer.
    What does hold in every reachable state is that the motion listener
    is attached at most once (registering the same handler again is
    ignored), and that it is attached only while a timer is pending and
    the loop flag is set. After a successful inference with the flag
    set, the buffer is empty and the listener attached exactly once. *)
Theorem start_unguarded_listener_once :
  forall (p : Policy) (s : Main.State),
    Main.Reachable p s ->
    listener_ok s /\
    (let s' := Main.startContinuousLoop s in
     Main.accelData s' = [] /\ Main.timers s' = S (Main.timers s) /\
     attached s' = 1) /\
    (forall n predictions,
       Main.continueLoop s = true -> Main.inferring s = S n ->
       let s' := Main.step p (Main.DataSettles (DataResolves predictions)) s in
       Main.accelData s' = [] /\ attached s' = 1 /\
       Main.timers s' = S (Main.timers s)).
Proof.
  intros p s Hr. pose proof (reachable_listener_ok p s Hr) as Hok.
  split; [exact Hok|]. split.
  - unfold Main.startContinuousLoop, Main.startCollectingData, attached. simpl.
    destruct (listener_ok_cases s Hok) as [E|(E & _ & _)]; rewrite E; simpl;
      repeat split.
  - intros n predictions Hc Hi. simpl. rewrite Hi.
    unfold Main.stopCollectingData_resume, Main.startCollectingData, attached.
    simpl. rewrite Hc. simpl.
    destruct (listener_ok_cases s Hok) as [E|(E & _ & _)]; rewrite E; simpl;
      repeat split.
Qed.

Lemma start_unguarded_listener_once_witness :
  let ev := motion (num 1) (num 2) (num 3) in
  let armed :=
    Main.step Downsample (Main.Motion ev)
      (Main.step Downsample Main.Start (Main.init true)) in
  let inferring :=
    Main.step Downsample (Main.TimerFires PredictReturns)
      (Main.step Downsample Main.Start (Main.init true)) in
  (attached armed = 1 /\ Main.timers armed = 1 /\
   length (Main.accelData armed) = 1 /\
   listener_ok armed /\
   Main.accelData (Main.startContinuousLoop armed) = [] /\
   Main.timers (Main.startContinuousLoop armed) = 2 /\
   attached (Main.startContinuousLoop armed) = 1) /\
  (Main.continueLoop inferring = true /\ Main.inferring inferring = 1 /\
   listener_ok inferring /\
   Main.accelData (Main.startContinuousLoop inferring) = [] /\
   Main.timers (Main.startContinuousLoop inferring) = 1 /\
   attached (Main.startContinuousLoop inferring) = 1 /\
   (let s' := Main.step Downsample (Main.DataSettles (DataResolves [])) inferring in
    Main.accelData s' = [] /\ attached s' = 1 /\
    Main.timers s' = S (Main.timers inferring))).
Proof.
  intros ev armed inferring.
  assert (Ra : Main.Reachable Downsample armed)
    by (apply Main.Reachable_step, Main.Reachable_step, Main.Reachable_init).
  assert (Ri : Main.Reachable Downsample inferring)
    by (apply Main.Reachable_step, Main.Reachable_step, Main.Reachable_init).
  destruct (start_unguarded_listener_once Downsample armed Ra)
    as (Hoka & (Hbuf & Htim & Hatt) & _).
  destruct (start_unguarded_listener_once Downsample inferring Ri)
    as (Hoki & (Hbuf' & Htim' & Hatt') & Hresolve).
  split.
  - split; [reflexivity|]. split; [reflexivity|]. split; [reflexivity|].
    split; [exact Hoka|]. split; [exact Hbuf|]. split; [exact Htim|exact Hatt].
  - split; [reflexivity|]. split; [reflexivity|].
    split; [exact Hoki|]. split; [exact Hbuf'|]. split; [exact Htim'|].
    split; [exact Hatt'|].
    exact (Hresolve 0 [] eq_refl eq_refl).
Defined.

(** C8, as stated, fails: the stop is not for ever. [startContinuousLoop]
    sets the loop flag again, so after a stop a new start attaches the
    listener, schedules a timer, and the next reading is appended. *)
Lemma restart_after_stop_rearms :
  let ev := motion (num 1) (num 2) (num 3) in
  let armed := Main.step Downsample Main.Start (Main.init true) in
  let stopped := Main.stopContinuousLoop armed in
  let s' := Main.run Downsample [Main.Start; Main.Motion ev] stopped in
  (attached armed = 1 /\ Main.continueLoop stopped = false /\
   attached stopped = 0) /\
  Main.continueLoop s' = true /\ attached s' = 1 /\ Main.timers s' = 2 /\
  Main.accelData s' = [Some (mkReading (num 1) (num 2) (num 3))].
Proof.
  vm_compute. repeat split.
Qed.

(** C8, amended. [stopContinuousLoop] clears the loop flag and detaches
    the listener at once, leaving a pending inference and a pending
    timer alone. From then on, for as long as [startContinuousLoop] is
    not called again, the flag stays cleared and the listener detached:
    a motion event changes nothing, no timer is added, and an inference
    that settles finishes its cycle without arming another. *)
Theorem stop_halts_cycle :
  forall (p : Policy) (s : Main.State) (tr : list Main.Event),
    Main.Reachable p s ->
    Forall (fun e => e <> Main.Start) tr ->
    let s1 := Main.stopContinuousLoop s in
    let s' := Main.run p tr s1 in
    (Main.continueLoop s1 = false /\ attached s1 = 0 /\
     Main.inferring s1 = Main.inferring s /\ Main.timers s1 = Main.timers s /\
     Main.accelData s1 = Main.accelData s) /\
    (Main.continueLoop s' = false /\ attached s' = 0 /\
     Main.timers s' <= Main.timers s) /\
    (forall event, Main.step p (Main.Motion event) s' = s') /\
    (forall r n, Main.inferring s' = S n ->
       let s'' := Main.step p (Main.DataSettles r) s' in
       Main.inferring s'' = n /\ Main.timers s'' = Main.timers s' /\
       attached s'' = 0 /\ Main.continueLoop s'' = false /\
       Main.accelData s'' = Main.accelData s').
Proof.
  intros p s tr Hr Hall s1 s'.
  pose proof (reachable_listener_ok p s Hr) as [Hle _].
  assert (Hl1 : Main.listeners s1 = [])
    by (apply removeEventListener_detaches; exact Hle).
  assert (Hc1 : Main.continueLoop s1 = false) by reflexivity.
  destruct (run_stays_stopped p tr s1 Hall Hc1 Hl1) as (Hc' & Hl' & Ht').
  fold s' in Hc', Hl', Ht'.
  split; [|split; [|split]].
  - unfold attached. rewrite Hl1. repeat split.
  - unfold attached. rewrite Hl'. repeat split; [exact Hc'|exact Ht'].
  - intros event. simpl. rewrite Hl'. reflexivity.
  - intros r n Hi. simpl. rewrite Hi.
    unfold Main.stopCollectingData_resume, attached.
    destruct r; simpl; rewrite Hc'; simpl; rewrite Hl'; repeat split; exact Hc'.
Qed.

Lemma stop_halts_cycle_witness :
  let ev := motion (num 1) (num 2) (num 3) in
  let armed :=
    Main.step Downsample (Main.Motion ev)
      (Main.step Downsample Main.Start (Main.init true)) in
  let tr := [Main.Motion ev; Main.TimerFires PredictReturns; Main.Motion ev;
             Main.DataSettles (DataResolves []); Main.Motion ev] in
  let s1 := Main.stopContinuousLoop armed in
  let s' := Main.run Downsample tr s1 in
  (attached armed = 1 /\ Main.timers armed = 1 /\
   length (Main.accelData armed) = 1) /\
  (Main.continueLoop s1 = false /\ attached s1 = 0 /\
   Main.inferring s1 = Main.inferring armed /\
   Main.timers s1 = Main.timers armed /\
   Main.accelData s1 = Main.accelData armed) /\
  (Main.continueLoop s' = false /\ attached s' = 0 /\
   Main.timers s' <= Main.timers armed) /\
  (forall event, Main.step Downsample (Main.Motion event) s' = s').
Proof.
  intros ev armed tr s1 s'.
  assert (Ra : Main.Reachable Downsample armed)
    by (apply Main.Reachable_step, Main.Reachable_step, Main.Reachable_init).
  assert (Hall : Forall (fun e => e <> Main.Start) tr)
    by (repeat constructor; discriminate).
  destruct (stop_halts_cycle Downsample armed tr Ra Hall)
    as (Hstop & Hlater & Hmotion & _).
  split; [repeat split|]. split; [exact Hstop|]. split; [exact Hlater|exact Hmotion].
Defined.

(** * Further properties of the scripts *)

(** ** Normalization: what the window is made of *)

Lemma normalize_truncate_long (a : list Elem) :
  TARGET_SAMPLES < length a ->
  normalize Truncate a = skipn (length a - 52) a.
Proof.
  unfold TARGET_SAMPLES. intros H.
  simpl. unfold normalize_truncate, slice_last, TARGET_SAMPLES.
  replace (length a <? 52) with false by (symmetry; apply Nat.ltb_ge; lia).
  replace (52 <? length a) with true by (symmetry; apply Nat.ltb_lt; lia).
  reflexivity.
Qed.

Lemma normalize_truncate_entries (a : list Elem) (v : Elem) :
  In v (normalize Truncate a) -> In v a \/ v = Some zero_reading.
Proof.
  intros Hin.
  destruct (Nat.lt_trichotomy (length a) TARGET_SAMPLES) as [Hlt|[Heq|Hgt]].
  - rewrite (normalize_pad Truncate a Hlt) in Hin.
    apply in_app_or in Hin as [Hin|Hin]; [now left|right].
    now apply repeat_spec in Hin.
  - rewrite (normalize_fixed Truncate a Heq) in Hin. now left.
  - left. rewrite (normalize_truncate_long a Hgt) in Hin.
    rewrite <- (firstn_skipn (length a - 52) a). apply in_or_app. now right.
Qed.

(** X1. A window longer than 52 entries is cut at the front: the result
    under the truncating policy is the window without its first [L - 52]
    entries, so slot [i] holds entry [L - 52 + i]. *)
Theorem truncate_keeps_last :
  forall accelData : list Elem,
    TARGET_SAMPLES < length accelData ->
    (exists dropped,
       accelData = dropped ++ normalize Truncate accelData /\
       length dropped = length accelData - 52) /\
    (forall i, i < 52 ->
       nth i (normalize Truncate accelData) None
         = nth (length accelData - 52 + i) accelData None).
Proof.
  intros a H. rewrite (normalize_truncate_long a H).
  unfold TARGET_SAMPLES in H. split.
  - exists (firstn (length a - 52) a). split.
    + symmetry. apply firstn_skipn.
    + rewrite length_firstn. lia.
  - intros i Hi.
    transitivity (nth (length a - 52 + i)
                    (firstn (length a - 52) a ++ skipn (length a - 52) a) None);
      [|now rewrite firstn_skipn].
    rewrite app_nth2 by (rewrite length_firstn; lia).
    f_equal. rewrite length_firstn. lia.
Qed.

Lemma truncate_keeps_last_witness :
  nth 0 (normalize Truncate (sequential 60)) None = nth 8 (sequential 60) None.
Proof.
  assert (H : TARGET_SAMPLES < length (sequential 60)) by (vm_compute; lia).
  exact (proj2 (truncate_keeps_last (sequential 60) H) 0 ltac:(lia)).
Defined.

(** X2. Normalization makes nothing up: every entry of the result is an
    entry of the collected window or the zero reading. For the
    downsampling policy the window has the length of a JavaScript
    array. *)
Theorem normalize_entries_from_window :
  forall (p : Policy) (accelData : list Elem) (v : Elem),
    (p = Downsample -> (Z.of_nat (length accelData) < 2 ^ 32)%Z) ->
    In v (normalize p accelData) ->
    In v accelData \/ v = Some zero_reading.
Proof.
  intros p a v Hb Hin.
  destruct (Nat.lt_trichotomy (length a) TARGET_SAMPLES) as [Hlt|[Heq|Hgt]].
  - rewrite (normalize_pad p a Hlt) in Hin.
    apply in_app_or in Hin as [Hin|Hin]; [now left|right].
    now apply repeat_spec in Hin.
  - rewrite (normalize_fixed p a Heq) in Hin. now left.
  - destruct p; [now apply normalize_truncate_entries|left].
    rewrite normalize_downsample_long, downsample_map in Hin by exact Hgt.
    apply in_map_iff in Hin as (i & <- & Hi). apply in_seq in Hi.
    destruct (stride_index_nat (length a) i Hgt (Hb eq_refl) ltac:(lia))
      as (k & E & Hk & _).
    rewrite E, array_get_nat. now apply nth_In.
Qed.

Lemma normalize_entries_from_window_witness :
  In (nth 13 (normalize Downsample (sequential 60)) None) (sequential 60) \/
  nth 13 (normalize Downsample (sequential 60)) None = Some zero_reading.
Proof.
  apply (normalize_entries_from_window Downsample (sequential 60)).
  - intros _. vm_compute. reflexivity.
  - apply nth_In. vm_compute. lia.
Defined.

(** X3. Under the downsampling policy two consecutive slots read entries
    at most [L/52 + 2] apart, and the last slot reads one of the final
    [L/52 + 2] entries: the picks span the whole window and skip no
    stretch longer than that. *)
Theorem downsample_gaps_bounded :
  forall (len : nat),
    TARGET_SAMPLES < len -> (Z.of_nat len < 2 ^ 32)%Z ->
    (forall i ki kj, S i < TARGET_SAMPLES ->
       stride_index len i = Some ki -> stride_index len (S i) = Some kj ->
       (1 <= kj - ki <= Z.of_nat (len / 52) + 2)%Z) /\
    (forall k, stride_index len 51 = Some k ->
       (Z.of_nat len - Z.of_nat (len / 52) - 2 <= k <= Z.of_nat len - 1)%Z).
Proof.
  unfold TARGET_SAMPLES. intros len Hlen H32.
  assert (Hd : Z.of_nat (len / 52) = (Z.of_nat len / 52)%Z)
    by (rewrite Nat2Z.inj_div; reflexivity).
  split.
  - intros i ki kj Hi Ei Ej. split.
    + pose proof (stride_index_increasing len i (S i) ki kj Hlen H32
                    ltac:(lia) Hi Ei Ej). lia.
    + destruct (FloatFacts.stride_index_spec len i Hlen H32 ltac:(lia))
        as (ki' & Ei' & Hki & _).
      destruct (FloatFacts.stride_index_spec len (S i) Hlen H32 Hi)
        as (kj' & Ej' & Hkj & _).
      rewrite Ei in Ei'. rewrite Ej in Ej'.
      injection Ei' as <-. injection Ej' as <-.
      assert (Hs : Z.of_nat (S i * len) = (Z.of_nat (i * len) + Z.of_nat len)%Z) by lia.
      rewrite Hs in Hkj. rewrite Hd.
      remember (Z.of_nat (i * len)) as P. remember (Z.of_nat len) as Lz.
      clear HeqP Hs Ei Ej.
      pose proof (Z_div_mod_eq_full P 52). pose proof (Z.mod_pos_bound P 52 ltac:(lia)).
      pose proof (Z_div_mod_eq_full Lz 52). pose proof (Z.mod_pos_bound Lz 52 ltac:(lia)).
      pose proof (Z_div_mod_eq_full (P + Lz) 52).
      pose proof (Z.mod_pos_bound (P + Lz) 52 ltac:(lia)). lia.
  - intros k E.
    destruct (FloatFacts.stride_index_spec len 51 Hlen H32 ltac:(lia))
      as (k' & E' & Hk & _).
    rewrite E in E'. injection E' as <-.
    assert (Hs : Z.of_nat (51 * len) = (51 * Z.of_nat len)%Z) by lia.
    rewrite Hs in Hk. rewrite Hd.
    remember (Z.of_nat len) as Lz.
    pose proof (Z_div_mod_eq_full Lz 52). pose proof (Z.mod_pos_bound Lz 52 ltac:(lia)).
    pose proof (Z_div_mod_eq_full (51 * Lz) 52).
    pose proof (Z.mod_pos_bound (51 * Lz) 52 ltac:(lia)). lia.
Qed.

Lemma downsample_gaps_bounded_witness :
  (Z.of_nat 60 - Z.of_nat (60 / 52) - 2 <= 58 <= Z.of_nat 60 - 1)%Z.
Proof.
  refine (proj2 (downsample_gaps_bounded 60 _ _) 58%Z _).
  - vm_compute. lia.
  - vm_compute. reflexivity.
  - vm_compute. reflexivity.
Defined.

(** ** [main.js]: the window and the cycle *)

Lemma zero_reading_numeric : numeric_entry (Some zero_reading).
Proof.
  unfold numeric_entry, zero_reading, num.
  do 3 eexists. split; [reflexivity|]. repeat split; vm_compute; reflexivity.
Qed.

Lemma js_or_numeric (v : JsValue) :
  exists n, js_or v (num 0) = JsNumber n /\ PrimFloat.is_nan n = false.
Proof.
  unfold js_or. destruct v as [| |n]; simpl;
    try (eexists; split; [reflexivity|vm_compute; reflexivity]).
  destruct (PrimFloat.is_zero n) eqn:Ez; simpl;
    [eexists; split; [reflexivity|vm_compute; reflexivity]|].
  destruct (PrimFloat.is_nan n) eqn:En; simpl;
    [eexists; split; [reflexivity|vm_compute; reflexivity]|].
  exists n. split; [reflexivity|exact En].
Qed.

Lemma reading_of_event_numeric (event : MotionEvent) :
  numeric_entry (Some (Main.reading_of_event event)).
Proof.
  unfold Main.reading_of_event.
  destruct (accelerationIncludingGravity event) as [[ax ay az]|]; simpl.
  - destruct (js_or_numeric ax) as (nx & -> & Hx).
    destruct (js_or_numeric ay) as (ny & -> & Hy).
    destruct (js_or_numeric az) as (nz & -> & Hz).
    exists nx, ny, nz. auto.
  - apply zero_reading_numeric.
Qed.

Lemma existsb_added (l : list Callback) :
  existsb (Callback_eqb HandleMotionEvent) (addEventListener HandleMotionEvent l) = true.
Proof.
  unfold addEventListener.
  destruct (existsb (Callback_eqb HandleMotionEvent) l) eqn:E; [exact E|].
  rewrite existsb_app. simpl. apply orb_true_r.
Qed.

(** X4. In [main.js] with the truncating normalization, every entry of
    the buffer, in every state the page can reach, is a reading whose
    three axes are numbers other than [NaN]: what the handler stores and
    what padding adds, never [null], [undefined] or a hole. *)
Theorem main_window_numeric :
  forall s : Main.State,
    Main.Reachable Truncate s -> Forall numeric_entry (Main.accelData s).
Proof.
  assert (Hstart : forall s, Forall numeric_entry (Main.accelData s) ->
             Forall numeric_entry (Main.accelData (Main.startCollectingData s))).
  { intros s H. unfold Main.startCollectingData.
    destruct (Main.continueLoop s); simpl; [constructor|exact H]. }
  assert (Hresume : forall s, Forall numeric_entry (Main.accelData s) ->
             Forall numeric_entry (Main.accelData (Main.stopCollectingData_resume s))).
  { intros s H. unfold Main.stopCollectingData_resume.
    destruct (Main.continueLoop s); [now apply Hstart|exact H]. }
  induction 1 as [m|e s _ IH]; [constructor|].
  destruct e as [| |event|r|r]; simpl.
  - constructor.
  - exact IH.
  - destruct (existsb _ _); [|exact IH]. simpl. unfold push.
    apply Forall_app. split; [exact IH|].
    constructor; [apply reading_of_event_numeric|constructor].
  - destruct (Main.timers s) as [|n]; [exact IH|].
    assert (Hn : Forall numeric_entry (normalize Truncate (Main.accelData s))).
    { rewrite Forall_forall in *. intros v Hin.
      destruct (normalize_truncate_entries (Main.accelData s) v Hin) as [Hv| ->];
        [now apply IH|apply zero_reading_numeric]. }
    unfold Main.stopCollectingData, Main.runInference. simpl.
    destruct (Main.model s); simpl; [destruct r; simpl|];
      try (apply Hresume; simpl; exact Hn); exact Hn.
  - destruct (Main.inferring s) as [|n]; [exact IH|].
    apply Hresume. destruct r; simpl; exact IH.
Qed.

Lemma main_window_numeric_witness :
  Forall numeric_entry
    (Main.accelData
       (Main.step Truncate (Main.Motion (motion JsNull JsUndefined (num 2)))
          (Main.step Truncate Main.Start (Main.init true)))).
Proof.
  apply main_window_numeric.
  apply Main.Reachable_step, Main.Reachable_step, Main.Reachable_init.
Defined.

(** X5. A window as collected: after [startContinuousLoop] and any
    number of motion events the buffer holds one reading per event, in
    the order of arrival, whatever it held before. *)
Theorem main_window_in_arrival_order :
  forall (p : Policy) (s : Main.State) (events : list MotionEvent),
    Main.accelData (Main.run p (Main.Start :: map Main.Motion events) s)
      = map (fun event => Some (Main.reading_of_event event)) events /\
    attached (Main.run p (Main.Start :: map Main.Motion events) s)
      = attached (Main.startContinuousLoop s).
Proof.
  intros p s events. unfold Main.run. simpl fold_left.
  assert (H : forall s0,
            existsb (Callback_eqb HandleMotionEvent) (Main.listeners s0) = true ->
            Main.accelData (fold_left (fun s e => Main.step p e s)
                              (map Main.Motion events) s0)
              = Main.accelData s0
                  ++ map (fun event => Some (Main.reading_of_event event)) events /\
            Main.listeners (fold_left (fun s e => Main.step p e s)
                              (map Main.Motion events) s0)
              = Main.listeners s0).
  { induction events as [|ev evs IH]; intros s0 Hl; simpl.
    - split; [now rewrite app_nil_r|reflexivity].
    - rewrite Hl.
      destruct (IH (Main.handleMotionEvent ev s0) Hl) as [Ea El].
      rewrite Ea, El. simpl. unfold push. rewrite <- app_assoc.
      split; reflexivity. }
  destruct (H (Main.startContinuousLoop s)) as [Ea El].
  - unfold Main.startContinuousLoop, Main.startCollectingData. simpl.
    apply existsb_added.
  - unfold attached. rewrite Ea, El. split; reflexivity.
Qed.

(** X7. The result log only grows at the front: over any sequence of
    events the earlier results stay, in order, behind the newer ones,
    and each newer result is what some [data()] promise of the sequence
    resolved to. *)
Theorem main_log_grows_at_front :
  forall (p : Policy) (tr : list Main.Event) (s : Main.State),
    exists newer,
      Main.logResults (Main.run p tr s) = newer ++ Main.logResults s /\
      Forall (fun predictions =>
                In (Main.DataSettles (DataResolves predictions)) tr) newer.
Proof.
  assert (Hresume : forall s, Main.logResults (Main.stopCollectingData_resume s)
                              = Main.logResults s).
  { intros s. unfold Main.stopCollectingData_resume, Main.startCollectingData.
    destruct (Main.continueLoop s); reflexivity. }
  assert (Hstep : forall p e s,
            Main.logResults (Main.step p e s) = Main.logResults s \/
            exists predictions,
              e = Main.DataSettles (DataResolves predictions) /\
              Main.logResults (Main.step p e s) = predictions :: Main.logResults s).
  { intros p e s. destruct e as [| |event|r|r]; simpl.
    - left. unfold Main.startContinuousLoop, Main.startCollectingData. reflexivity.
    - left. reflexivity.
    - left. destruct (existsb _ _); reflexivity.
    - left. destruct (Main.timers s) as [|n]; [reflexivity|].
      unfold Main.stopCollectingData, Main.runInference. simpl.
      destruct (Main.model s); simpl; [destruct r; simpl|];
        rewrite ?Hresume; reflexivity.
    - destruct (Main.inferring s) as [|n]; [now left|].
      rewrite Hresume. destruct r as [err|predictions]; [now left|right].
      exists predictions. split; reflexivity. }
  intros p tr. induction tr as [|e tr IH]; intros s.
  - exists []. split; [reflexivity|constructor].
  - destruct (IH (Main.step p e s)) as (newer & E & Hall).
    change (Main.run p (e :: tr) s) with (Main.run p tr (Main.step p e s)).
    destruct (Hstep p e s) as [Hs|(predictions & -> & Hs)]; rewrite Hs in E.
    + exists newer. split; [exact E|].
      eapply Forall_impl; [|exact Hall]. intros q Hq. now right.
    + exists (newer ++ [predictions]). split.
      * rewrite E, <- app_assoc. reflexivity.
      * apply Forall_app. split.
        -- eapply Forall_impl; [|exact Hall]. intros q Hq. now right.
        -- constructor; [now left|constructor].
Qed.

Lemma step_cycle_alive (p : Policy) (e : Main.Event) (s : Main.State) :
  cycle_alive s -> cycle_alive (Main.step p e s).
Proof.
  unfold cycle_alive. intros H.
  destruct e as [| |event|r|r]; simpl.
  - intros _. lia.
  - discriminate.
  - destruct (existsb _ _); exact H.
  - destruct (Main.timers s) as [|n] eqn:Et; [rewrite Et; exact H|].
    unfold Main.stopCollectingData, Main.runInference,
      Main.stopCollectingData_resume, Main.startCollectingData. simpl.
    destruct (Main.model s); simpl; [destruct r; simpl|];
      destruct (Main.continueLoop s) eqn:Ec; simpl; intros; try lia; congruence.
  - destruct (Main.inferring s) as [|n] eqn:Ei; [rewrite Ei; exact H|].
    unfold Main.stopCollectingData_resume, Main.startCollectingData.
    destruct r; simpl; destruct (Main.continueLoop s) eqn:Ec; simpl;
      intros; try lia; congruence.
Qed.

(** X8. Once started, the loop of [main.js] cannot die silently: in
    every state reached after [startContinuousLoop], as long as the
    loop flag is set, a collection timer is pending or an inference is
    in flight, whatever fails in between. *)
Theorem main_loop_never_stalls :
  forall (p : Policy) (tr : list Main.Event) (s : Main.State),
    cycle_alive (Main.run p tr (Main.startContinuousLoop s)).
Proof.
  intros p tr s.
  assert (H0 : cycle_alive (Main.startContinuousLoop s))
    by (unfold cycle_alive; simpl; intros _; lia).
  revert H0. generalize (Main.startContinuousLoop s).
  induction tr as [|e tr IH]; intros s0 H0; [exact H0|].
  apply (IH (Main.step p e s0)). now apply step_cycle_alive.
Qed.

(** X9. Started once, [main.js] runs one cycle at a time: from the
    loaded script, after one [startContinuousLoop] and any events other
    than a further start, at most one timer or inference is pending,
    and the listener is attached only while that one timer is. *)
Theorem main_one_cycle_at_a_time :
  forall (p : Policy) (m : bool) (tr : list Main.Event),
    Forall (fun e => e <> Main.Start) tr ->
    let s := Main.run p tr (Main.startContinuousLoop (Main.init m)) in
    Main.timers s + Main.inferring s <= 1 /\
    (attached s = 1 -> Main.timers s = 1 /\ Main.inferring s = 0).
Proof.
  intros p m tr Hall.
  set (single := fun s : Main.State =>
         Main.timers s + Main.inferring s <= 1 /\
         (Main.listeners s = [] \/
          (Main.listeners s = [HandleMotionEvent] /\ Main.timers s = 1))).
  assert (Hstep : forall e s, e <> Main.Start -> single s ->
                              single (Main.step p e s)).
  { intros e s He [Hsum Hl]. unfold single.
    destruct e as [| |event|r|r]; simpl.
    - congruence.
    - split; [exact Hsum|left].
      destruct Hl as [->|[-> _]]; reflexivity.
    - destruct (existsb _ _); simpl; split; assumption.
    - destruct (Main.timers s) as [|n] eqn:Et; [rewrite Et; split; assumption|].
      unfold Main.stopCollectingData, Main.runInference,
        Main.stopCollectingData_resume, Main.startCollectingData. simpl.
      assert (El : removeEventListener HandleMotionEvent (Main.listeners s) = [])
        by (destruct Hl as [->|[-> _]]; reflexivity).
      rewrite El.
      destruct (Main.model s); simpl; [destruct r; simpl|];
        destruct (Main.continueLoop s); simpl;
        (split; [lia|first [left; reflexivity | right; split; [reflexivity|lia]]]).
    - destruct (Main.inferring s) as [|n] eqn:Ei; [rewrite Ei; split; assumption|].
      unfold Main.stopCollectingData_resume, Main.startCollectingData.
      destruct r; simpl; destruct (Main.continueLoop s); simpl;
        (split; [lia|]);
        destruct Hl as [El|[El Ht]]; rewrite El; simpl;
        first [left; reflexivity | right; split; [reflexivity|lia]]. }
  assert (H0 : single (Main.startContinuousLoop (Main.init m)))
    by (split; [simpl; lia|right; split; reflexivity]).
  revert H0. generalize (Main.startContinuousLoop (Main.init m)).
  induction tr as [|e tr IH]; intros s0 H0.
  - destruct H0 as [Hsum Hl]. simpl. split; [exact Hsum|].
    unfold attached. destruct Hl as [->|[-> Ht]]; simpl; [discriminate|].
    intros _. split; lia.
  - inversion Hall as [|? ? He Hall']; subst.
    apply (IH Hall' (Main.step p e s0)). now apply Hstep.
Qed.

Lemma main_one_cycle_at_a_time_witness :
  let s := Main.run Downsample
             [Main.TimerFires PredictReturns; Main.DataSettles (DataResolves [])]
             (Main.startContinuousLoop (Main.init true)) in
  Main.timers s + Main.inferring s <= 1.
Proof.
  intros s.
  refine (proj1 (main_one_cycle_at_a_time Downsample true
            [Main.TimerFires PredictReturns; Main.DataSettles (DataResolves [])] _)).
  repeat constructor; discriminate.
Defined.

(** X10. [stopContinuousLoop] does not cancel the pending timeout: when
    it fires the window collected so far is still normalized to 52
    entries and, with a model loaded, handed to inference once; no
    further window follows. *)
Theorem main_stop_keeps_pending_timer :
  forall (p : Policy) (s : Main.State) (n : nat) (r : PredictResult),
    Main.Reachable p s -> Main.timers s = S n ->
    let s1 := Main.stopContinuousLoop s in
    let s2 := Main.step p (Main.TimerFires r) s1 in
    Main.timers s1 = S n /\
    Main.accelData s2 = normalize p (Main.accelData s) /\
    length (Main.accelData s2) = 52 /\
    Main.timers s2 = n /\ attached s2 = 0 /\ Main.continueLoop s2 = false /\
    (Main.model s = true -> r = PredictReturns ->
       Main.inferring s2 = S (Main.inferring s)).
Proof.
  intros p s n r Hr Ht s1 s2.
  pose proof (reachable_listener_ok p s Hr) as [Hle _].
  subst s2 s1. simpl. rewrite Ht.
  unfold Main.stopCollectingData, Main.runInference,
    Main.stopCollectingData_resume, attached. simpl.
  rewrite (removeEventListener_detaches _ Hle). simpl.
  pose proof (normalize_length p (Main.accelData s)) as Hlen.
  destruct (Main.model s); simpl; [destruct r; simpl|];
    repeat split; try exact Hlen; try discriminate; congruence.
Qed.

Lemma main_stop_keeps_pending_timer_witness :
  let s := Main.step Truncate Main.Start (Main.init true) in
  length (Main.accelData
            (Main.step Truncate (Main.TimerFires PredictReturns)
               (Main.stopContinuousLoop s))) = 52.
Proof.
  intros s.
  refine (proj1 (proj2 (proj2 (main_stop_keeps_pending_timer Truncate s 0
            PredictReturns _ _)))).
  - apply Main.Reachable_step, Main.Reachable_init.
  - reflexivity.
Defined.

(** ** The first looping script: stopping and re-arming *)

Lemma part000_startCollectingData_listeners (s : Main.State) :
  length (Main.listeners s) <= 1 ->
  Main.listeners (Part000.startCollectingData s) = [HandleMotionEvent].
Proof.
  intros H. unfold Part000.startCollectingData. simpl.
  destruct (listeners_cases _ H) as [->| ->]; reflexivity.
Qed.

Lemma part000_step_listeners (e : Main.Event) (s : Main.State) :
  length (Main.listeners s) <= 1 ->
  length (Main.listeners (Part000.step e s)) <= 1.
Proof.
  intros H. pose proof (part000_startCollectingData_listeners s H) as Hs.
  destruct e as [| |event|r|r]; cbn [Part000.step].
  - unfold Part000.startLoop. destruct (Main.continueLoop s); cbn [negb]; [|exact H].
    rewrite Hs. simpl. lia.
  - simpl. rewrite (removeEventListener_detaches _ H). simpl. lia.
  - destruct (existsb _ _); [|exact H].
    unfold Part000.handleMotionEvent.
    destruct (accelerationIncludingGravity event); exact H.
  - destruct (Main.timers s) as [|n]; [exact H|].
    unfold Part000.stopCollectingData, Part000.runInference. simpl.
    rewrite (removeEventListener_detaches _ H).
    destruct (Main.model s); simpl; [destruct r; simpl|]; try lia;
      destruct (Main.continueLoop s); simpl; lia.
  - destruct (Main.inferring s) as [|n]; [exact H|].
    destruct r; simpl; [exact H|].
    destruct (Main.continueLoop s); [|exact H].
    change (length (Main.listeners
              (Part000.startCollectingData
                 (Main.set_status (StatusInferenceResult predictions)
                    (Main.set_inferring n s)))) <= 1).
    rewrite part000_startCollectingData_listeners by exact H. simpl. lia.
Qed.

Lemma part000_reachable_listeners (s : Main.State) :
  Part000_Reachable s -> length (Main.listeners s) <= 1.
Proof.
  induction 1 as [m|e s _ IH]; [simpl; lia|].
  now apply part000_step_listeners.
Qed.

(** X11. In the first looping script [stopLoop] is final: nothing sets
    [continueLoop] back, so after it no event, [startLoop] included,
    attaches the listener or schedules a timer again. *)
Theorem part000_stop_is_final :
  forall (s : Main.State) (tr : list Main.Event),
    Part000_Reachable s ->
    let s' := Part000.run tr (Part000.stopLoop s) in
    Main.continueLoop s' = false /\ attached s' = 0 /\
    Main.timers s' <= Main.timers s /\
    Part000.startLoop s' = s'.
Proof.
  intros s tr Hr.
  pose proof (part000_reachable_listeners s Hr) as Hle.
  assert (Hstep : forall e s0,
            Main.continueLoop s0 = false -> Main.listeners s0 = [] ->
            Main.continueLoop (Part000.step e s0) = false /\
            Main.listeners (Part000.step e s0) = [] /\
            Main.timers (Part000.step e s0) <= Main.timers s0).
  { intros e s0 Hc Hl. destruct e as [| |event|r|r]; simpl.
    - unfold Part000.startLoop. rewrite Hc. simpl. auto.
    - rewrite Hl. simpl. auto.
    - rewrite Hl. simpl. auto.
    - destruct (Main.timers s0) as [|n] eqn:Et; [rewrite Et; auto|].
      unfold Part000.stopCollectingData, Part000.runInference. simpl.
      rewrite Hl. simpl.
      destruct (Main.model s0); simpl; [destruct r; simpl|];
        rewrite ?Hc; simpl; auto.
    - destruct (Main.inferring s0) as [|n] eqn:Ei; [auto|].
      destruct r; simpl; rewrite ?Hc; simpl; auto. }
  assert (H0c : Main.continueLoop (Part000.stopLoop s) = false) by reflexivity.
  assert (H0l : Main.listeners (Part000.stopLoop s) = [])
    by (apply removeEventListener_detaches; exact Hle).
  assert (H0t : Main.timers (Part000.stopLoop s) <= Main.timers s) by (simpl; lia).
  revert H0c H0l H0t. generalize (Part000.stopLoop s).
  induction tr as [|e tr IH]; intros s0 Hc Hl Ht; simpl.
  - unfold attached, Part000.startLoop. rewrite Hl, Hc. simpl. auto.
  - destruct (Hstep e s0 Hc Hl) as (Hc' & Hl' & Ht').
    apply IH; [exact Hc'|exact Hl'|lia].
Qed.

Lemma part000_stop_is_final_witness :
  let s := Part000.step Main.Start (Main.init true) in
  attached (Part000.run [Main.Start; Main.TimerFires PredictReturns]
              (Part000.stopLoop s)) = 0.
Proof.
  intros s.
  refine (proj1 (proj2 (part000_stop_is_final s
            [Main.Start; Main.TimerFires PredictReturns] _))).
  apply Part000_Reachable_step, Part000_Reachable_init.
Defined.

(** X12. What does keep the first looping script going: with the loop
    flag set, a timer that fires without a model and an inference that
    resolves both start the next window with an empty buffer and the
    listener attached once; a rejected [data()] promise does not. *)
Theorem part000_rearms_unless_rejected :
  forall (s : Main.State) (n : nat),
    Part000_Reachable s -> Main.continueLoop s = true ->
    (forall r, Main.timers s = S n -> Main.model s = false ->
       let s' := Part000.step (Main.TimerFires r) s in
       Main.timers s' = S n /\ attached s' = 1 /\ Main.accelData s' = [] /\
       Main.status s' = StatusModelNotLoaded /\
       Main.unhandled s' = Main.unhandled s) /\
    (forall predictions, Main.inferring s = S n ->
       let s' := Part000.step (Main.DataSettles (DataResolves predictions)) s in
       Main.timers s' = S (Main.timers s) /\ attached s' = 1 /\
       Main.accelData s' = [] /\
       Main.status s' = StatusInferenceResult predictions) /\
    (forall err, Main.inferring s = S n ->
       let s' := Part000.step (Main.DataSettles (DataRejects err)) s in
       Main.timers s' = Main.timers s /\ Main.inferring s' = n /\
       Main.listeners s' = Main.listeners s /\
       Main.unhandled s' = err :: Main.unhandled s).
Proof.
  intros s n Hr Hc.
  pose proof (part000_reachable_listeners s Hr) as Hle.
  split; [|split].
  - intros r Ht Hm. simpl. rewrite Ht.
    unfold Part000.stopCollectingData, Part000.runInference, attached. simpl.
    rewrite Hm. simpl. rewrite Hc.
    rewrite (removeEventListener_detaches _ Hle). simpl. repeat split.
  - intros predictions Hi. simpl. rewrite Hi. simpl. rewrite Hc.
    unfold attached. rewrite part000_startCollectingData_listeners by exact Hle.
    simpl. repeat split.
  - intros err Hi. simpl. rewrite Hi. simpl. repeat split.
Qed.

Lemma part000_rearms_unless_rejected_witness :
  let s := Part000.step (Main.TimerFires PredictReturns)
             (Part000.step Main.Start (Main.init true)) in
  attached (Part000.step (Main.DataSettles (DataResolves [])) s) = 1.
Proof.
  intros s.
  refine (proj1 (proj2 (proj1 (proj2 (part000_rearms_unless_rejected s 0 _ _))
                          [] _))).
  - apply Part000_Reachable_step, Part000_Reachable_step, Part000_Reachable_init.
  - reflexivity.
  - reflexivity.
Defined.

(** ** The rolling buffer *)

Lemma slice_last_short {A} (n : nat) (l : list A) :
  length l <= n -> slice_last n l = l.
Proof.
  intros H. unfold slice_last. replace (length l - n) with 0 by lia. reflexivity.
Qed.

Lemma slice_last_app_absorb {A} (n : nat) (l d : list A) :
  slice_last n (slice_last n l ++ d) = slice_last n (l ++ d).
Proof.
  unfold slice_last.
  destruct (Nat.le_gt_cases (length l) n) as [Hle|Hgt].
  - replace (length l - n) with 0 by lia. reflexivity.
  - rewrite !length_app, length_skipn.
    replace (length l - (length l - n) + length d - n) with (length d) by lia.
    rewrite !skipn_app, length_skipn, skipn_skipn.
    f_equal; f_equal; lia.
Qed.

Lemma rolling_step (now : float) (event : MotionEvent) (s : Part002.State) :
  length (Part002.accelData s) <= 100 ->
  Part002.accelData (Part002.handleMotionEvent now event s)
    = slice_last 100 (Part002.accelData s ++ delivered [(now, event)]).
Proof.
  intros Hle.
  destruct event as [[a|]]; unfold delivered, Part002.handleMotionEvent; simpl.
  - unfold push, slice_last.
    set (data := Part002.accelData s
                   ++ [Part002.mkTimedReading (acc_x a) (acc_y a) (acc_z a) now]).
    assert (Hlen : length data = length (Part002.accelData s) + 1)
      by (unfold data; rewrite length_app; reflexivity).
    assert (E : (if Part002.MAX_SAMPLES <? length data then tl data else data)
                = skipn (length data - 100) data).
    { change Part002.MAX_SAMPLES with 100.
      destruct (Nat.ltb_spec 100 (length data)) as [Hgt|Hle'].
      - replace (length data - 100) with 1 by lia. destruct data; reflexivity.
      - replace (length data - 100) with 0 by lia. reflexivity. }
    destruct (Part002.number_of (acc_x a)), (Part002.number_of (acc_y a)),
      (Part002.number_of (acc_z a)); simpl; exact E.
  - rewrite app_nil_r. symmetry. now apply slice_last_short.
Qed.

(** X13. The rolling buffer is a sliding window: started with at most
    100 entries, after any sequence of events it holds the last 100
    of the entries it had and the readings delivered since, in order,
    and never more than 100. An event without an acceleration object
    adds nothing. *)
Theorem rolling_buffer_is_last_100 :
  forall (evs : list (float * MotionEvent)) (s : Part002.State),
    length (Part002.accelData s) <= Part002.MAX_SAMPLES ->
    Part002.accelData (rolling_run evs s)
      = slice_last 100 (Part002.accelData s ++ delivered evs) /\
    length (Part002.accelData (rolling_run evs s)) <= 100.
Proof.
  change Part002.MAX_SAMPLES with 100.
  assert (Hlen : forall (l : list Part002.TimedReading),
            length (slice_last 100 l) <= 100)
    by (intros l; unfold slice_last; rewrite length_skipn; lia).
  induction evs as [|[now event] evs IH]; intros s Hle.
  - unfold rolling_run, delivered. simpl. rewrite app_nil_r.
    rewrite slice_last_short by exact Hle. split; [reflexivity|exact Hle].
  - change (rolling_run ((now, event) :: evs) s)
      with (rolling_run evs (Part002.handleMotionEvent now event s)).
    pose proof (rolling_step now event s Hle) as Es.
    assert (Hle' : length (Part002.accelData
                             (Part002.handleMotionEvent now event s)) <= 100)
      by (rewrite Es; apply Hlen).
    destruct (IH _ Hle') as [E Hl]. split; [|exact Hl].
    rewrite E, Es, slice_last_app_absorb, <- app_assoc.
    f_equal. f_equal. unfold delivered. simpl. now rewrite app_nil_r.
Qed.

Lemma rolling_buffer_is_last_100_witness :
  length (Part002.accelData
            (rolling_run [(of_nat 7, motion (num 1) (num 2) (num 3))]
               (rolling 0 100))) <= 100.
Proof.
  refine (proj2 (rolling_buffer_is_last_100
                   [(of_nat 7, motion (num 1) (num 2) (num 3))] (rolling 0 100) _)).
  vm_compute. lia.
Defined.

(** ** Start-up *)

(** X14. [initDemo] of [main.js] starts the loop exactly when the motion
    permission is there (no permission API, or the request resolved to
    ['granted']) and the model loaded. Then one timer is pending and the
    listener attached; otherwise the page is left inactive, and no
    sensor, timer or promise event makes it do anything. *)
Theorem main_initDemo_starts_iff_ready :
  forall (env : PermissionEnv) (load : LoadResult) (m : bool) (p : Policy),
    let '(text, s) := MainInit.initDemo env load (Main.init m) in
    (requestMotionPermission env = true <->
       env = NoPermissionAPI \/
       env = PermissionAPI (RequestResolves "granted"%string)) /\
    (text = InitStarting <->
       requestMotionPermission env = true /\ load = LoadSucceeds) /\
    (text = InitPermissionDenied <-> requestMotionPermission env = false) /\
    (text = InitStarting ->
       Main.model s = true /\ Main.continueLoop s = true /\
       Main.timers s = 1 /\ attached s = 1 /\ Main.accelData s = []) /\
    (text <> InitStarting ->
       Main.timers s = 0 /\ attached s = 0 /\ Main.inferring s = 0 /\
       forall e, e <> Main.Start -> e <> Main.Stop -> Main.step p e s = s).
Proof.
  intros env load m p. unfold MainInit.initDemo.
  assert (Hperm : requestMotionPermission env = true <->
                  env = NoPermissionAPI \/
                  env = PermissionAPI (RequestResolves "granted"%string)).
  { destruct env as [|[response|err]]; simpl.
    - split; auto.
    - destruct (String.eqb_spec response "granted"%string) as [->|Hne].
      + split; auto.
      + split; [discriminate|]. intros [H|H]; [discriminate|].
        injection H as H. contradiction.
    - split; [discriminate|]. intros [H|H]; discriminate. }
  destruct (requestMotionPermission env) eqn:Eg; simpl.
  - destruct load as [|err]; simpl.
    + split; [exact Hperm|]. split; [split; auto|].
      split; [split; discriminate|]. split; [intros _; repeat split|].
      intros H. contradiction.
    + split; [exact Hperm|]. split; [split; [discriminate|intros [_ H]; discriminate]|].
      split; [split; discriminate|]. split; [discriminate|].
      intros _. repeat split.
      intros e H1 H2. destruct e; try reflexivity; contradiction.
  - split; [exact Hperm|]. split; [split; [discriminate|intros [H _]; discriminate]|].
    split; [split; auto|]. split; [discriminate|].
    intros _. repeat split.
    intros e H1 H2. destruct e; try reflexivity; contradiction.
Qed.

(** ** The single-shot script *)

(** X15. One click, one window: in the single-shot script a click with
    the permission granted starts a collection even when the model
    failed to load; when its timer fires the window has 52 entries, and
    after that no sensor, timer or promise event changes the window,
    attaches the listener or schedules a timer, until the next click. *)
Theorem part001_single_shot :
  forall (env : PermissionEnv) (load : LoadResult) (m : bool)
         (events : list MotionEvent) (r : PredictResult)
         (tr : list Part001.Event),
    requestMotionPermission env = true ->
    Forall (fun e => forall env' load', e <> Part001.Click env' load') tr ->
    let s0 := Part001.run (Part001.Click env load :: map Part001.Motion events)
                (Main.init m) in
    let s1 := Part001.step (Part001.TimerFires r) s0 in
    let s2 := Part001.run tr s1 in
    (Main.timers s0 = 1 /\ attached s0 = 1) /\
    (length (Main.accelData s1) = 52 /\ Main.timers s1 = 0 /\ attached s1 = 0) /\
    (Main.accelData s2 = Main.accelData s1 /\ Main.timers s2 = 0 /\
     attached s2 = 0) /\
    (Main.model s0 = false -> Main.status s1 = StatusModelNotLoaded).
Proof.
  intros env load m events r tr Hg Hall s0 s1 s2.
  (* motion events leave timer, listener, pending inferences and model alone *)
  assert (Hmotion : forall evs s,
            Main.timers (fold_left (fun s e => Part001.step e s)
                           (map Part001.Motion evs) s) = Main.timers s /\
            Main.listeners (fold_left (fun s e => Part001.step e s)
                              (map Part001.Motion evs) s) = Main.listeners s /\
            Main.model (fold_left (fun s e => Part001.step e s)
                          (map Part001.Motion evs) s) = Main.model s).
  { induction evs as [|ev evs IH]; intros s; [simpl; auto|].
    destruct (IH (Part001.step (Part001.Motion ev) s)) as (Ht & El & Em).
    cbn [map fold_left]. rewrite Ht, El, Em. simpl.
    destruct (existsb _ _); [|auto].
    unfold Part000.handleMotionEvent.
    destruct (accelerationIncludingGravity ev); auto. }
  (* after the timer nothing but a click does anything to the window *)
  assert (Hidle : forall e s,
            (forall env' load', e <> Part001.Click env' load') ->
            Main.timers s = 0 -> Main.listeners s = [] ->
            Main.timers (Part001.step e s) = 0 /\
            Main.listeners (Part001.step e s) = [] /\
            Main.accelData (Part001.step e s) = Main.accelData s).
  { intros e s He Ht El. destruct e as [env' load'|ev|r'|r']; simpl.
    - exfalso. exact (He env' load' eq_refl).
    - rewrite El. simpl. auto.
    - rewrite Ht. auto.
    - destruct (Main.inferring s) as [|n]; [auto|].
      destruct r'; simpl; auto. }
  assert (Hs0 : Main.timers s0 = 1 /\ Main.listeners s0 = [HandleMotionEvent] /\
                Main.model s0 = Main.model (Part001.loadModel load (Main.init m))).
  { subst s0. unfold Part001.run. simpl fold_left.
    unfold Part001.initDemo. rewrite Hg. cbn [negb].
    destruct (Hmotion events
                (Part001.startCollectingData (Part001.loadModel load (Main.init m))))
      as (Ht & El & Em).
    rewrite Ht, El, Em. repeat split. }
  destruct Hs0 as (Ht0 & El0 & Em0).
  assert (Hs1 : length (Main.accelData s1) = 52 /\ Main.timers s1 = 0 /\
                Main.listeners s1 = [] /\
                (Main.model s0 = false -> Main.status s1 = StatusModelNotLoaded)).
  { subst s1. simpl. rewrite Ht0.
    unfold Part001.stopCollectingData, Part000.runInference. simpl.
    rewrite El0. simpl.
    pose proof (normalize_length Truncate (Main.accelData s0)) as Hlen.
    simpl in Hlen.
    destruct (Main.model s0); simpl; [destruct r; simpl|];
      repeat split; try exact Hlen; try discriminate. }
  destruct Hs1 as (Hlen1 & Ht1 & El1 & Hst1).
  assert (Hs2 : Main.accelData s2 = Main.accelData s1 /\ Main.timers s2 = 0 /\
                Main.listeners s2 = []).
  { subst s2. revert Ht1 El1. generalize s1. clear Hlen1 Hst1.
    induction tr as [|e tr IH]; intros s Ht El; [simpl; auto|].
    inversion Hall as [|? ? He Hall']; subst.
    destruct (Hidle e s He Ht El) as (Ht' & El' & Ea').
    destruct (IH Hall' (Part001.step e s) Ht' El') as (Ea & Ht'' & El'').
    simpl. unfold Part001.run in *. rewrite Ea, Ea'. auto. }
  destruct Hs2 as (Ea2 & Ht2 & El2).
  unfold attached. rewrite El0, El1, El2. simpl.
  repeat split; assumption.
Qed.

Lemma part001_single_shot_witness :
  length (Main.accelData
            (Part001.step (Part001.TimerFires PredictReturns)
               (Part001.run
                  (Part001.Click NoPermissionAPI (LoadFails TypeError)
                     :: map Part001.Motion [motion (num 1) (num 2) (num 3)])
                  (Main.init false)))) = 52.
Proof.
  refine (proj1 (proj1 (proj2 (part001_single_shot NoPermissionAPI
            (LoadFails TypeError) false [motion (num 1) (num 2) (num 3)]
            PredictReturns [] _ _)))).
  - reflexivity.
  - constructor.
Defined.

(** ** Windows whose length is a multiple of 52

    When [52] divides the length, the quotient [len / 52] and every
    product [i * step] are integers below [2^53]: nothing is rounded. *)

Module FloatExact.

Import FloatFacts.
Local Open Scope Z_scope.

(** Shifting out zero bits leaves both flags clear. *)
Lemma shr_1_double t :
  0 <= t -> shr_1 (Build_shr_record (2 * t) false false) = Build_shr_record t false false.
Proof. destruct t as [|q|q]; intros H; try lia; reflexivity. Qed.

Lemma iter_shr_exact p :
  forall t, 0 <= t ->
    iter_pos shr_1 p (Build_shr_record (2 ^ Zpos p * t) false false)
      = Build_shr_record t false false.
Proof.
  induction p as [p IH|p IH|]; intros t Ht; cbn [iter_pos].
  - replace (2 ^ Zpos p~1 * t) with (2 * (2 ^ Zpos p * (2 ^ Zpos p * t))).
    + assert (0 < 2 ^ Zpos p) by (apply pow2_pos; lia).
      rewrite shr_1_double by nia. rewrite IH by nia. apply IH. exact Ht.
    + rewrite !Z.mul_assoc. change 2 with (2 ^ 1) at 1.
      rewrite <- !Z.pow_add_r by lia. f_equal. f_equal. lia.
  - replace (2 ^ Zpos p~0 * t) with (2 ^ Zpos p * (2 ^ Zpos p * t)).
    + assert (0 < 2 ^ Zpos p) by (apply pow2_pos; lia).
      rewrite IH by nia. apply IH. exact Ht.
    + rewrite Z.mul_assoc, <- Z.pow_add_r by lia. f_equal. f_equal. lia.
  - change (2 ^ 1) with 2. now apply shr_1_double.
Qed.

(** A mantissa that is a 53-digit number followed by [n] zero bits
    is rounded to that number, exactly. *)
Lemma round_aux_exact (t : positive) n ex :
  2 ^ 52 <= Zpos t < 2 ^ 53 -> 0 <= n -> -1021 <= 53 + n + ex <= 1023 ->
  binary_round_aux prec emax false (2 ^ n * Zpos t) ex loc_Exact
    = S754_finite false t (ex + n).
Proof.
  intros Ht Hn Hr.
  assert (Hpn : 0 < 2 ^ n) by (apply pow2_pos; lia).
  assert (Hd : Zdigits2 (2 ^ n * Zpos t) = 53 + n).
  { apply Zdigits2_unique; [|lia].
    replace (53 + n - 1) with (n + 52) by lia. replace (53 + n) with (n + 53) by lia.
    rewrite !Z.pow_add_r by lia. split.
    - apply Z.mul_le_mono_nonneg_l; lia.
    - apply Z.mul_lt_mono_pos_l; lia. }
  unfold binary_round_aux, shr_fexp. rewrite Hd, fexp_normal by lia.
  replace (53 + n + ex - 53 - ex) with n by lia.
  assert (E1 : shr (shr_record_of_loc (2 ^ n * Zpos t) loc_Exact) ex n
               = (Build_shr_record (Zpos t) false false, ex + n)).
  { destruct n as [|p|p]; try lia.
    - simpl. rewrite Z.add_0_r. reflexivity.
    - unfold shr. simpl shr_record_of_loc. rewrite iter_shr_exact by lia. reflexivity. }
  rewrite E1. simpl shr_m. simpl loc_of_shr_record. simpl round_nearest_even.
  rewrite (Zdigits2_unique (Zpos t) 53), fexp_normal by lia.
  replace (53 + (ex + n) - 53 - (ex + n)) with 0 by lia.
  simpl shr. cbn [shr_m].
  destruct (Z.leb_spec (ex + n) (emax - prec)) as [_|Hgt];
    [reflexivity | unfold emax, prec in Hgt; lia].
Qed.

(** A value [P * 2^k] with [P] below [2^53] has at most 53
    significant bits: its mantissa splits into 53 digits and zeros. *)
Lemma split_mantissa P k :
  0 < P < 2 ^ 53 -> 0 <= k -> 53 <= Zdigits2 (P * 2 ^ k) ->
  exists t : positive,
    Zdigits2 (P * 2 ^ k) - 53 <= k /\
    P * 2 ^ k = 2 ^ (Zdigits2 (P * 2 ^ k) - 53) * Zpos t /\
    2 ^ 52 <= Zpos t < 2 ^ 53 /\
    Zpos t = P * 2 ^ (k - (Zdigits2 (P * 2 ^ k) - 53)).
Proof.
  intros HP Hk Hd.
  assert (Hpk : 0 < 2 ^ k) by (apply pow2_pos; lia).
  assert (Hpos : 0 < P * 2 ^ k) by (apply Z.mul_pos_pos; lia).
  pose proof (Zdigits2_bounds _ Hpos) as Hb.
  remember (Zdigits2 (P * 2 ^ k)) as d eqn:Ed.
  remember (d - 53) as n eqn:En.
  assert (Hnk : n <= k).
  { assert (H1 : P * 2 ^ k < 2 ^ 53 * 2 ^ k) by (apply Z.mul_lt_mono_pos_r; lia).
    rewrite <- Z.pow_add_r in H1 by lia.
    assert (H2 : 2 ^ (d - 1) < 2 ^ (53 + k)) by lia.
    apply Z.pow_lt_mono_r_iff in H2; lia. }
  assert (Hpn : 0 < 2 ^ n) by (apply pow2_pos; lia).
  assert (Hsplit : 2 ^ k = 2 ^ n * 2 ^ (k - n))
    by (rewrite <- Z.pow_add_r by lia; f_equal; lia).
  assert (Hpkn : 0 < 2 ^ (k - n)) by (apply pow2_pos; lia).
  assert (Ht : 0 < P * 2 ^ (k - n)) by (apply Z.mul_pos_pos; lia).
  exists (Z.to_pos (P * 2 ^ (k - n))). rewrite Z2Pos.id by exact Ht.
  split; [exact Hnk|]. split; [rewrite Hsplit; ring|]. split; [|reflexivity].
  assert (E : P * 2 ^ k = 2 ^ n * (P * 2 ^ (k - n))) by (rewrite Hsplit; ring).
  rewrite E in Hb.
  replace (d - 1) with (n + 52) in Hb by lia.
  replace d with (n + 53) in Hb by lia.
  rewrite !Z.pow_add_r in Hb by lia. destruct Hb as [Hlo Hhi].
  split.
  - apply Z.mul_le_mono_pos_l in Hlo; lia.
  - apply Z.mul_lt_mono_pos_l in Hhi; lia.
Qed.

(** Dividing a multiple [52 * m] by 52 gives [m], exactly. *)
Lemma SFdiv_exact_52 (mL : positive) eL m :
  2 ^ 52 <= Zpos mL < 2 ^ 53 -> -52 <= eL <= 0 ->
  0 < m < 2 ^ 53 -> Zpos mL = 52 * m * 2 ^ (- eL) ->
  exists ms es,
    SF64div (S754_finite false mL eL) (S754_finite false (13 * 2 ^ 49) (-47))
      = S754_finite false ms es /\
    2 ^ 52 <= Zpos ms < 2 ^ 53 /\ eL - 6 <= es <= 0 /\
    Zpos ms = m * 2 ^ (- es).
Proof.
  intros HmL HeL Hm Hv.
  unfold SF64div, SFdiv, SFdiv_core_binary.
  rewrite (Zdigits2_unique (Zpos mL) 53) by lia.
  change (Zdigits2 (Zpos (13 * 2 ^ 49))) with 53.
  rewrite fexp_normal by lia.
  replace (Z.min (53 + eL - (53 + -47) - 53) (eL - -47)) with (eL - 6) by lia.
  replace (eL - -47 - (eL - 6)) with 53 by lia.
  rewrite Z.shiftl_mul_pow2 by lia.
  assert (Hpk : 0 < 2 ^ (6 - eL)) by (apply pow2_pos; lia).
  assert (Ea : Zpos mL * 2 ^ 53 = (m * 2 ^ (6 - eL)) * Zpos (13 * 2 ^ 49)).
  { rewrite Hv. change (Zpos (13 * 2 ^ 49)) with (52 * 2 ^ 47).
    replace (6 - eL) with (6 + - eL) by lia. rewrite Z.pow_add_r by lia.
    change (2 ^ 53) with (2 ^ 47 * 2 ^ 6). ring. }
  rewrite Ea.
  destruct (Z.div_eucl (m * 2 ^ (6 - eL) * Zpos (13 * 2 ^ 49)) (Zpos (13 * 2 ^ 49)))
    as [q r] eqn:Heq.
  assert (Hq : q = m * 2 ^ (6 - eL)).
  { transitivity ((m * 2 ^ (6 - eL) * Zpos (13 * 2 ^ 49)) / Zpos (13 * 2 ^ 49)).
    - unfold Z.div. rewrite Heq. reflexivity.
    - apply Z.div_mul. lia. }
  assert (Hr : r = 0).
  { transitivity ((m * 2 ^ (6 - eL) * Zpos (13 * 2 ^ 49)) mod Zpos (13 * 2 ^ 49)).
    - unfold Z.modulo. rewrite Heq. reflexivity.
    - apply Z.mod_mul. lia. }
  subst q r. change (new_location (Zpos (13 * 2 ^ 49)) 0) with loc_Exact.
  cbn [xorb].
  assert (Hq52 : 2 ^ 52 <= m * 2 ^ (6 - eL)).
  { change (Zpos (13 * 2 ^ 49)) with (13 * 2 ^ 49) in Ea.
    change (2 ^ 53) with (16 * 2 ^ 49) in Ea. lia. }
  assert (Hd : 53 <= Zdigits2 (m * 2 ^ (6 - eL))).
  { destruct (Z_le_gt_dec 53 (Zdigits2 (m * 2 ^ (6 - eL)))) as [|Hgt]; [assumption|].
    exfalso. pose proof (Zdigits2_bounds (m * 2 ^ (6 - eL)) ltac:(lia)) as [_ Hhi].
    assert (2 ^ Zdigits2 (m * 2 ^ (6 - eL)) <= 2 ^ 52)
      by (apply Z.pow_le_mono_r; lia).
    lia. }
  assert (Hd' : Zdigits2 (m * 2 ^ (6 - eL)) <= 54).
  { destruct (Z_le_gt_dec (Zdigits2 (m * 2 ^ (6 - eL))) 54) as [|Hgt]; [assumption|].
    exfalso. pose proof (Zdigits2_bounds (m * 2 ^ (6 - eL)) ltac:(lia)) as [Hlo _].
    assert (2 ^ 54 <= 2 ^ (Zdigits2 (m * 2 ^ (6 - eL)) - 1))
      by (apply Z.pow_le_mono_r; lia).
    change (Zpos (13 * 2 ^ 49)) with (13 * 2 ^ 49) in Ea.
    change (2 ^ 53) with (16 * 2 ^ 49) in Ea.
    change (2 ^ 54) with (2 * 2 ^ 53) in H. lia. }
  destruct (split_mantissa m (6 - eL) Hm ltac:(lia) Hd) as (t & Hnk & Esplit & Ht & Etv).
  remember (Zdigits2 (m * 2 ^ (6 - eL)) - 53) as n eqn:En.
  rewrite Esplit, round_aux_exact by lia.
  exists t, (eL - 6 + n). split; [reflexivity|]. split; [exact Ht|]. split; [lia|].
  rewrite Etv. f_equal. f_equal. lia.
Qed.

(** The product of two integers whose product is below [2^53] is
    exact, and so is its floor. *)
Lemma SFmul_exact_floor (mi : positive) ei (ms : positive) es i m :
  2 ^ 52 <= Zpos mi < 2 ^ 53 -> 2 ^ 52 <= Zpos ms < 2 ^ 53 ->
  -100 <= ei <= 0 -> -100 <= es <= 0 ->
  0 < i * m < 2 ^ 53 ->
  Zpos mi = i * 2 ^ (- ei) -> Zpos ms = m * 2 ^ (- es) ->
  SFfloor (SF64mul (S754_finite false mi ei) (S754_finite false ms es)) = Some (i * m).
Proof.
  intros Hmi Hms Hei Hes HP Evi Evs.
  unfold SF64mul, SFmul. cbn [xorb]. rewrite Pos2Z.inj_mul.
  assert (Emx : Zpos mi * Zpos ms = (i * m) * 2 ^ (- ei - es)).
  { rewrite Evi, Evs. replace (- ei - es) with (- ei + - es) by lia.
    rewrite Z.pow_add_r by lia. ring. }
  rewrite Emx.
  assert (Hbig : 2 ^ 104 <= i * m * 2 ^ (- ei - es)).
  { rewrite <- Emx. change (2 ^ 104) with (2 ^ 52 * 2 ^ 52).
    apply Z.mul_le_mono_nonneg; lia. }
  assert (Hd : 53 <= Zdigits2 (i * m * 2 ^ (- ei - es))).
  { destruct (Z_le_gt_dec 53 (Zdigits2 (i * m * 2 ^ (- ei - es)))) as [|Hgt];
      [assumption|exfalso].
    pose proof (Zdigits2_bounds (i * m * 2 ^ (- ei - es)) ltac:(lia)) as [_ Hhi].
    assert (2 ^ Zdigits2 (i * m * 2 ^ (- ei - es)) <= 2 ^ 52)
      by (apply Z.pow_le_mono_r; lia).
    lia. }
  assert (Hd' : Zdigits2 (i * m * 2 ^ (- ei - es)) <= 106).
  { destruct (Z_le_gt_dec (Zdigits2 (i * m * 2 ^ (- ei - es))) 106) as [|Hgt];
      [assumption|exfalso].
    pose proof (Zdigits2_bounds (i * m * 2 ^ (- ei - es)) ltac:(lia)) as [Hlo _].
    assert (2 ^ 106 <= 2 ^ (Zdigits2 (i * m * 2 ^ (- ei - es)) - 1))
      by (apply Z.pow_le_mono_r; lia).
    assert (Zpos mi * Zpos ms < 2 ^ 53 * 2 ^ 53)
      by (apply Z.mul_lt_mono_nonneg; lia).
    change (2 ^ 53 * 2 ^ 53) with (2 ^ 106) in *. lia. }
  destruct (split_mantissa (i * m) (- ei - es) HP ltac:(lia) Hd)
    as (t & Hnk & Esplit & Ht & Etv).
  remember (Zdigits2 (i * m * 2 ^ (- ei - es)) - 53) as n eqn:En.
  rewrite Esplit, round_aux_exact by lia.
  cbn [SFfloor cond_Zopp]. f_equal.
  rewrite Z.shiftl_div_pow2 by lia.
  replace (- (ei + es + n)) with (- ei - es - n) by lia.
  rewrite Etv. apply Z.div_mul.
  assert (0 < 2 ^ (- ei - es - n)) by (apply pow2_pos; lia). lia.
Qed.

(** [Math.floor(i * (52 m / 52))] is [i * m]. *)
Lemma stride_index_multiple (m i : nat) :
  (1 < m)%nat -> Z.of_nat (52 * m) < 2 ^ 32 -> (i < 52)%nat ->
  stride_index (52 * m) i = Some (Z.of_nat (i * m)).
Proof.
  intros Hm H32 Hi.
  unfold stride_index, Math_floor, step_of.
  rewrite FloatAxioms.mul_spec, FloatAxioms.div_spec, Prim2SF_52.
  destruct (Prim2SF_of_uint63_nat (52 * m)) as (mL & eL & EL & HmL & HeL & HvL); [lia|].
  unfold of_nat at 2. rewrite EL.
  destruct (SFdiv_exact_52 mL eL (Z.of_nat m)) as (ms & es & Es & Hms & Hes & Hvs);
    try lia.
  rewrite Es.
  destruct i as [|i'].
  - reflexivity.
  - remember (S i') as i eqn:Ei.
    destruct (Prim2SF_of_uint63_nat i) as (mi & ei & Ei' & Hmi & Hei & Hvi); [lia|].
    unfold of_nat. rewrite Ei'.
    rewrite (SFmul_exact_floor mi ei ms es (Z.of_nat i) (Z.of_nat m)); try lia.
    + f_equal. lia.
    + assert (Z.of_nat i * Z.of_nat m < 52 * Z.of_nat m)
        by (apply Z.mul_lt_mono_pos_r; lia).
      assert (0 < Z.of_nat i * Z.of_nat m) by (apply Z.mul_pos_pos; lia).
      lia.
Qed.

End FloatExact.

(** X16. A window of [52 * m] readings is downsampled to every [m]-th
    reading: slot [i] holds entry [i * m], exactly, for every [m] from 2
    up to the bound on array lengths. *)
Theorem downsample_every_mth :
  forall (accelData : list Elem) (m i : nat),
    length accelData = 52 * m -> 1 < m ->
    (Z.of_nat (length accelData) < 2 ^ 32)%Z -> i < TARGET_SAMPLES ->
    stride_index (length accelData) i = Some (Z.of_nat (i * m)) /\
    nth i (normalize Downsample accelData) None = nth (i * m) accelData None.
Proof.
  unfold TARGET_SAMPLES. intros a m i Hlen Hm H32 Hi.
  assert (E : stride_index (length a) i = Some (Z.of_nat (i * m)))
    by (rewrite Hlen in *; now apply FloatExact.stride_index_multiple).
  split; [exact E|].
  rewrite normalize_downsample_long by (unfold TARGET_SAMPLES; lia).
  rewrite downsample_nth by exact Hi.
  rewrite E. apply array_get_nat.
Qed.

Lemma downsample_every_mth_witness :
  nth 13 (normalize Downsample (sequential 104)) None
    = nth (13 * 2) (sequential 104) None.
Proof.
  refine (proj2 (downsample_every_mth (sequential 104) 2 13 _ _ _ _)).
  - vm_compute. reflexivity.
  - lia.
  - vm_compute. reflexivity.
  - vm_compute. lia.
Defined.

(** X17. In the single-shot script a failed inference goes unreported:
    when [model.predict] throws, or [data()] is rejected, the error is
    left unhandled and the status text still announces the collected
    window. *)
Theorem part001_failed_inference_unreported :
  forall (s : Main.State) (n : nat) (err : JsError),
    Main.model s = true ->
    (Main.timers s = S n ->
     let s' := Part001.step (Part001.TimerFires (PredictThrows err)) s in
     Main.unhandled s' = err :: Main.unhandled s /\
     Main.status s' = StatusCollected 52 /\
     Main.timers s' = n /\ Main.inferring s' = Main.inferring s) /\
    (Main.inferring s = S n ->
     let s' := Part001.step (Part001.DataSettles (DataRejects err)) s in
     Main.unhandled s' = err :: Main.unhandled s /\
     Main.status s' = Main.status s /\
     Main.timers s' = Main.timers s /\ Main.inferring s' = n).
Proof.
  intros s n err Hm. split.
  - intros Ht. simpl. rewrite Ht.
    unfold Part001.stopCollectingData, Part000.runInference. simpl.
    rewrite Hm. simpl.
    pose proof (normalize_length Truncate (Main.accelData s)) as Hlen.
    simpl in Hlen. rewrite Hlen. repeat split.
  - intros Hi. simpl. rewrite Hi. simpl. repeat split.
Qed.

Lemma part001_failed_inference_unreported_witness :
  let s := Part001.step (Part001.Click NoPermissionAPI LoadSucceeds) (Main.init false) in
  Main.unhandled (Part001.step (Part001.TimerFires (PredictThrows TypeError)) s)
    = TypeError :: Main.unhandled s.
Proof.
  intros s.
  refine (proj1 (proj1 (part001_failed_inference_unreported s 0 TypeError _) _)).
  - reflexivity.
  - reflexivity.
Defined.
